(** * vive-inventario-mcp: the resolver and the dispatcher of [src/server.js]

    A shallow embedding of the JavaScript of [server.js]: the values that
    [JSON.parse] builds, the operators the file applies to them, the
    markup stripper, the relationship resolver, the lookup with its retry,
    and the [/mcp] request handlers over the session registry. *)

From Stdlib Require Import ZArith NArith List String Ascii Floats Lia.
From Stdlib Require Import DecimalString.
From Equations Require Import Equations.
From stdpp Require Import base option list gmap strings.

Import ListNotations.
Set Warnings "-register-all".
Local Open Scope string_scope.
Local Open Scope list_scope.

(** ** JavaScript values *)

Module JS.

(** What [JSON.parse] can return, plus [undefined]. A number is a binary64
    float, as in JavaScript. An object lists its own properties; after
    [JSON.parse] every key occurs once. *)
Inductive value : Type :=
| VUndefined
| VNull
| VBool (b : bool)
| VNum (n : float)
| VStr (s : string)
| VArr (items : list value)
| VObj (props : list (string * value)).

(** The errors this program can raise or receive. [AbortError] is what
    [fetch] rejects with once [controller.abort()] has run; [NetworkError]
    stands for any other rejection of [fetch] or of [res.text()]. *)
Inductive error : Type :=
| TypeError (msg : string)
| AbortError
| NetworkError.

(** The outcome of evaluating an expression: a value, or an exception. *)
Inductive completion (A : Type) : Type :=
| Normal (a : A)
| Throw (e : error).
Arguments Normal {A} a.
Arguments Throw {A} e.

#[export] Instance completion_ret : MRet completion := fun A a => Normal a.
#[export] Instance completion_bind : MBind completion := fun A B f m =>
  match m with
  | Normal a => f a
  | Throw e => Throw e
  end.

(** [ToBoolean]. *)
Definition truthy (v : value) : bool :=
  match v with
  | VUndefined | VNull => false
  | VBool b => b
  | VNum n => negb (PrimFloat.eqb n 0 || PrimFloat.is_nan n)
  | VStr s => negb (String.eqb s "")
  | VArr _ | VObj _ => true
  end.

Definition nullish (v : value) : bool :=
  match v with
  | VUndefined | VNull => true
  | _ => false
  end.

(** [a || b] and [a ?? b]; the right operands in [server.js] never throw. *)
Definition or_ (a b : value) : value := if truthy a then a else b.
Definition coalesce (a b : value) : value := if nullish a then b else a.

(** [a === b]. Two arrays or two objects are equal only when they are the
    same object; the operands compared in [server.js] come from different
    places of one parsed document, so they never are. *)
Definition strict_eq (a b : value) : bool :=
  match a, b with
  | VUndefined, VUndefined => true
  | VNull, VNull => true
  | VBool x, VBool y => Bool.eqb x y
  | VNum x, VNum y => PrimFloat.eqb x y
  | VStr x, VStr y => String.eqb x y
  | _, _ => false
  end.

Fixpoint own (props : list (string * value)) (k : string) : value :=
  match props with
  | [] => VUndefined
  | (k', v) :: rest => if String.eqb k' k then v else own rest k
  end.

(** [v.k] for a [v] that is neither [null] nor [undefined], and a key [k]
    that no prototype defines (true of every key [server.js] reads:
    [data], [included], [attributes], [name], [title], ...). *)
Definition get (v : value) (k : string) : value :=
  match v with
  | VObj props => own props k
  | _ => VUndefined
  end.

(** [v.k]: a [TypeError] on [null] and [undefined]. *)
Definition member (v : value) (k : string) : completion value :=
  if nullish v then Throw (TypeError "Cannot read properties of null or undefined")
  else Normal (get v k).

(** [v?.k]. *)
Definition optional (v : value) (k : string) : value :=
  if nullish v then VUndefined else get v k.

Definition isArray (v : value) : bool :=
  match v with
  | VArr _ => true
  | _ => false
  end.

(** [items.find(f)] on the elements in order; an exception of [f] ends
    the search. *)
Fixpoint find_first (f : value -> completion bool) (items : list value)
  : completion value :=
  match items with
  | [] => Normal VUndefined
  | x :: rest =>
      b ← f x;
      if b : bool then Normal x else find_first f rest
  end.

(** [arr.find(f)]: only an array has the method; on any other value that
    is not nullish the call is a [TypeError]. *)
Definition Array_find (arr : value) (f : value -> completion bool)
  : completion value :=
  match arr with
  | VArr items => find_first f items
  | _ => Throw (TypeError "find is not a function")
  end.

End JS.
Import JS.

(** ** Relationship resolver *)

(** [resolveOne], the closure of [resolveIncludedNames] over [included]. *)
Definition resolveOne (included ref : value) : completion value :=
  found ← Array_find included (fun x =>
    xt ← member x "type";
    rt ← member ref "type";
    if strict_eq xt rt then
      xi ← member x "id";
      ri ← member ref "id";
      mret (strict_eq xi ri)
    else mret false);
  if negb (truthy found) then mret VNull
  else
    let attributes := get found "attributes" in
    mret (or_ (or_ (optional attributes "name") (optional attributes "title")) VNull).

Definition resolveIncludedNames (payload relData : value) : completion value :=
  if negb (truthy (optional payload "included")) || negb (truthy relData)
  then mret VNull
  else
    let included := get payload "included" in
    match relData with
    | VArr refs =>
        names ← mapM (resolveOne included) refs;
        mret (VArr (List.filter truthy names))
    | _ => resolveOne included relData
    end.

(** *** What the specification says of the resolver

    [resolveNames] follows section 4.2 of the specification, reading
    "present" as JavaScript does in [a || b]: an attribute counts as present
    when it is truthy. *)

Definition same_ref (ref x : value) : bool :=
  strict_eq (get x "type") (get ref "type")
  && strict_eq (get x "id") (get ref "id").

Definition display_name (resource : value) : value :=
  let attributes := get resource "attributes" in
  if truthy (optional attributes "name") then optional attributes "name"
  else if truthy (optional attributes "title") then optional attributes "title"
  else VNull.

Definition resolved_name (side_loaded : list value) (ref : value) : value :=
  match List.find (same_ref ref) side_loaded with
  | Some resource => display_name resource
  | None => VNull
  end.

Definition is_null (v : value) : bool :=
  match v with
  | VNull => true
  | _ => false
  end.

Definition resolveNames (document reference : value) : value :=
  if negb (truthy (optional document "included")) || negb (truthy reference)
  then VNull
  else
    match get document "included", reference with
    | VArr side_loaded, VArr refs =>
        VArr (List.filter (fun n => negb (is_null n))
                (List.map (resolved_name side_loaded) refs))
    | VArr side_loaded, _ => resolved_name side_loaded reference
    | _, _ => VNull
    end.

(** The documents on which the resolver raises no [TypeError]: when there
    is a side-loaded set and a reference, the set is an array without
    [null] entries, and so is a list reference. *)
Definition no_null (l : list value) : Prop := Forall (fun x => nullish x = false) l.

Definition well_formed (document reference : value) : Prop :=
  truthy (optional document "included") = true ->
  truthy reference = true ->
  exists side_loaded,
    get document "included" = VArr side_loaded
    /\ no_null side_loaded
    /\ forall refs, reference = VArr refs -> no_null refs.


(** *** Documents used as examples *)

Definition ref_to (type id : string) : value :=
  VObj [("type", VStr type); ("id", VStr id)].

Definition named_resource (type id name : string) : value :=
  VObj [("type", VStr type); ("id", VStr id);
        ("attributes", VObj [("name", VStr name)])].

(** A taxonomy term whose [name] is the empty string and whose [title] is
    not. *)
Definition blank_name_resource : value :=
  VObj [("type", VStr "taxonomy_term"); ("id", VStr "Y");
        ("attributes", VObj [("name", VStr ""); ("title", VStr "Olio")])].

(** A taxonomy term whose [name] is the empty string and that has no
    [title]. *)
Definition nameless_resource : value :=
  VObj [("type", VStr "taxonomy_term"); ("id", VStr "Z");
        ("attributes", VObj [("name", VStr "")])].

Definition side_loaded_terms : list value :=
  [named_resource "taxonomy_term" "X" "Oil";
   blank_name_resource;
   nameless_resource;
   named_resource "taxonomy_term" "W" "Canvas"].

Definition document_with_terms : value :=
  VObj [("data", VArr []); ("included", VArr side_loaded_terms)].

(** ** Built-ins the program calls *)

(** Three built-ins of the platform are parameters of the model:
    [String(n)] on a number, [JSON.parse] ([None] when it throws a
    [SyntaxError]) and [Buffer.from(s).toString("base64")]. *)
Class Platform : Type := {
  Number_toString : float -> string;
  JSON_parse : string -> option value;
  base64 : string -> string
}.

Definition has_own (props : list (string * value)) (k : string) : bool :=
  existsb (fun p => String.eqb (fst p) k) props.

(** [String(v)]. An array joins the strings of its elements with commas,
    null elements giving the empty string. A plain object gives
    [[object Object]], unless it has an own property [toString]: a value
    that [JSON.parse] built is not callable, [Object.prototype.valueOf]
    answers with the object itself, and the conversion is a [TypeError]. *)
Fixpoint String_ `{Platform} (v : value) : completion string :=
  match v with
  | VUndefined => mret "undefined"
  | VNull => mret "null"
  | VBool true => mret "true"
  | VBool false => mret "false"
  | VNum n => mret (Number_toString n)
  | VStr s => mret s
  | VArr items =>
      (fix join (l : list value) : completion string :=
         match l with
         | [] => mret ""
         | x :: rest =>
             a ← (if nullish x then mret "" else String_ x);
             match rest with
             | [] => mret a
             | _ => b ← join rest; mret (a +:+ "," +:+ b)
             end
         end) items
  | VObj props =>
      if has_own props "toString"
      then Throw (TypeError "Cannot convert object to primitive value")
      else mret "[object Object]"
  end.

(** ** Markup stripping *)

(** A character is a UTF-16 code unit; the model keeps the code units below
    256, written as [ascii]. *)
Module Regex.

(** The class [\s], which is also what [trim] removes: tab, line feed,
    vertical tab, form feed, carriage return, space and no-break space (the
    members below 256). *)
Definition is_space (c : ascii) : bool :=
  existsb (N.eqb (N_of_ascii c)) [9; 10; 11; 12; 13; 32; 160]%N.

(** Canonical form of a character under the flag [i]: upper case. Only the
    letters a to z change into a character below 128, so only they can
    match a letter of the patterns. *)
Definition upper (c : ascii) : ascii :=
  let n := N_of_ascii c in
  if (97 <=? n)%N && (n <=? 122)%N then ascii_of_N (n - 32) else c.

Definition same_letter (p c : ascii) : bool := Ascii.eqb (upper p) (upper c).

(** The rest of [s] after the literal [pat], read without regard to
    case. *)
Fixpoint after_prefix (pat s : list ascii) : option (list ascii) :=
  match pat, s with
  | [], _ => Some s
  | p :: pat', c :: s' => if same_letter p c then after_prefix pat' s' else None
  | _ :: _, [] => None
  end.

(** Index of the first occurrence of the character [x]. *)
Fixpoint index_of (x : ascii) (s : list ascii) : option nat :=
  match s with
  | [] => None
  | c :: rest => if Ascii.eqb c x then Some 0 else S <$> index_of x rest
  end.

(** Index of the first occurrence of the literal [pat], read without regard
    to case. *)
Fixpoint index_of_literal (pat s : list ascii) : option nat :=
  match after_prefix pat s with
  | Some _ => Some 0
  | None =>
      match s with
      | [] => None
      | _ :: rest => S <$> index_of_literal pat rest
      end
  end.

(** Length of the match of [<name[\s\S]*?>[\s\S]*?</name>] at the start of
    [s], [opening] being [<name] and [closing] being [</name>]. The first
    lazy star stops at the first [>]; should no [closing] follow it, none
    follows a later [>] either. The second stops at the first [closing]. *)
Definition match_block (opening closing s : list ascii) : option nat :=
  rest ← after_prefix opening s;
  j ← index_of ">" rest;
  k ← index_of_literal closing (drop (S j) rest);
  Some (length opening + S j + k + length closing).

(** Length of the match of [<\/?[^>]+>] at the start of [s]: a [<], then
    at least one character up to the first [>]. When the only character in
    between is [/], the optional [/] gives it back to the class. *)
Definition match_tag (s : list ascii) : option nat :=
  match s with
  | "<"%char :: rest =>
      match index_of ">" rest with
      | Some (S j) => Some (S (S (S j)))
      | _ => None
      end
  | _ => None
  end.

Fixpoint spaces (s : list ascii) : nat :=
  match s with
  | c :: rest => if is_space c then S (spaces rest) else 0
  | [] => 0
  end.

(** Length of the match of [\s+] at the start of [s]. *)
Definition match_space (s : list ascii) : option nat :=
  match spaces s with
  | 0 => None
  | n => Some n
  end.

(** [s.replace(/re/g, rep)], where [m] gives the length of the match of
    [re] at the start of a string: the leftmost match is replaced and the
    search goes on after it. None of the patterns here matches the empty
    string. *)
Equations? replace_all (m : list ascii -> option nat) (rep s : list ascii)
  : list ascii by wf (length s) lt :=
  replace_all m rep [] := [];
  replace_all m rep (c :: rest) with m (c :: rest) := {
    | Some n => rep ++ replace_all m rep (drop (pred n) rest);
    | None => c :: replace_all m rep rest }.
Proof.
  all: cbn [length]; rewrite ?length_drop; lia.
Qed.

Fixpoint drop_spaces (s : list ascii) : list ascii :=
  match s with
  | c :: rest => if is_space c then drop_spaces rest else s
  | [] => []
  end.

(** [s.trim()]. *)
Definition trim (s : list ascii) : list ascii :=
  rev (drop_spaces (rev (drop_spaces s))).

End Regex.
Import Regex.

(** The method chain of [stripHtml], on the characters of the string
    [String(html)]. *)
Definition strip_chars (s : list ascii) : list ascii :=
  let s1 := replace_all
              (match_block (list_ascii_of_string "<script")
                           (list_ascii_of_string "</script>"))
              [] s in
  let s2 := replace_all
              (match_block (list_ascii_of_string "<style")
                           (list_ascii_of_string "</style>"))
              [] s1 in
  let s3 := replace_all match_tag [" "%char] s2 in
  let s4 := replace_all match_space [" "%char] s3 in
  trim s4.

Definition strip_chain (s : string) : string :=
  string_of_list_ascii (strip_chars (list_ascii_of_string s)).

Definition stripHtml `{Platform} (html : value) : completion string :=
  if negb (truthy html) then mret ""
  else
    s ← String_ html;
    mret (strip_chain s).

(** *** Invariants of the passes of [stripHtml] *)

(** The pattern of [m] matches at no position of [s]. *)
Fixpoint no_match (m : list ascii -> option nat) (s : list ascii) : Prop :=
  match s with
  | [] => True
  | _ :: rest => m s = None /\ no_match m rest
  end.

(** No tag is left: [<\/?[^>]+>] matches at no position of [s]. *)
Abbreviation no_tag := (no_match match_tag).

(** Wherever [m] does not match in [s], the tag pattern does not either. *)
Fixpoint tags_within (m : list ascii -> option nat) (s : list ascii) : Prop :=
  match s with
  | [] => True
  | _ :: rest => (m s = None -> match_tag s = None) /\ tags_within m rest
  end.

(** White space is collapsed: every white-space character of [s] is a
    space that no white space follows. *)
Fixpoint collapsed (s : list ascii) : Prop :=
  match s with
  | [] => True
  | c :: rest =>
      (is_space c = true -> c = " "%char /\ spaces rest = 0) /\ collapsed rest
  end.

(** ** Query URLs *)

(** A parsed URL, as [new URL(...)] holds it: the text before the query,
    the query as a list of pairs, and the fragment (with its [#], or
    empty). *)
Record URL : Type := {
  url_base : string;
  searchParams : list (string * string);
  url_hash : string
}.

(** [url.searchParams.set(name, value)]: the first pair named [name] takes
    the value and the other pairs of that name go; without such a pair, one
    is appended. *)
Fixpoint set_pair (name value : string) (l : list (string * string))
  : list (string * string) :=
  match l with
  | [] => [(name, value)]
  | (k, v) :: rest =>
      if String.eqb k name
      then (name, value) :: List.filter (fun p => negb (String.eqb (fst p) name)) rest
      else (k, v) :: set_pair name value rest
  end.

Definition set (name value : string) (u : URL) : URL :=
  {| url_base := url_base u;
     searchParams := set_pair name value (searchParams u);
     url_hash := url_hash u |}.

Definition hex_digit (n : N) : ascii :=
  if (n <? 10)%N then ascii_of_N (48 + n) else ascii_of_N (55 + n).

(** The bytes of the UTF-8 form of a code unit below 256. *)
Definition utf8 (c : ascii) : list N :=
  let n := N_of_ascii c in
  if (n <? 128)%N then [n] else [192 + n / 64; 128 + n mod 64]%N.

(** One byte in the [application/x-www-form-urlencoded] serialisation. *)
Definition form_byte (b : N) : list ascii :=
  if (b =? 32)%N then ["+"%char]
  else if ((48 <=? b) && (b <=? 57) || (65 <=? b) && (b <=? 90)
           || (97 <=? b) && (b <=? 122)
           || (b =? 42) || (b =? 45) || (b =? 46) || (b =? 95))%N
  then [ascii_of_N b]
  else ["%"%char; hex_digit (b / 16); hex_digit (b mod 16)].

Definition form_encode (s : string) : string :=
  string_of_list_ascii
    (List.concat (List.map (fun c => List.concat (List.map form_byte (utf8 c)))
                    (list_ascii_of_string s))).

Fixpoint join (sep : string) (l : list string) : string :=
  match l with
  | [] => ""
  | [x] => x
  | x :: rest => x +:+ sep +:+ join sep rest
  end.

(** [url.toString()]. *)
Definition toString (u : URL) : string :=
  url_base u
  +:+ match searchParams u with
      | [] => ""
      | params =>
          "?" +:+ join "&" (List.map (fun p => form_encode (fst p) +:+ "="
                                                 +:+ form_encode (snd p)) params)
      end
  +:+ url_hash u.

(** ** Configuration *)

(** The constants [server.js] reads from the environment. The endpoint is
    held as [new URL(DRUPAL_JSONAPI_ENDPOINT)] parses it. [server.js] reads
    [DRUPAL_BASIC_AUTH] in [fetchJson] but holds no declaration of it (it
    declares [DRUPAL_BEARER_TOKEN], which it never reads); the model takes
    it as one more constant of the configuration. *)
Class Config : Type := {
  DRUPAL_JSONAPI_ENDPOINT : URL;
  DRUPAL_BASIC_AUTH : string;
  DRUPAL_TIMEOUT_MS : N
}.

Definition include_fields : list string :=
  ["field_autore"; "field_tipologia"; "field_luogo";
   "field_tecnica"; "field_materiale"; "field_schedatore"].

Definition buildOperaUrlWithFilterParams `{Config} (numeroInventario : string)
  : string :=
  let endpoint := DRUPAL_JSONAPI_ENDPOINT in
  let endpoint := set "page[limit]" "1" endpoint in
  let endpoint := set "filter[field_inventario]" numeroInventario endpoint in
  let endpoint := set "include" (join "," include_fields) endpoint in
  toString endpoint.

Definition buildOperaUrlWithFilterParamsVerboseFallback `{Config}
    (numeroInventario : string) : string :=
  let u := DRUPAL_JSONAPI_ENDPOINT in
  let u := set "page[limit]" "1" u in
  let u := set "filter[inventario][condition][path]" "field_inventario" u in
  let u := set "filter[inventario][condition][operator]" "=" u in
  let u := set "filter[inventario][condition][value]" numeroInventario u in
  let u := set "include" (join "," include_fields) u in
  toString u.

(** ** Outbound requests *)

(** What [fetchJson] hands to [fetch]: the URL, the method, the headers,
    and the delay after which its timer aborts the request. *)
Record request : Type := {
  req_url : string;
  req_method : string;
  req_headers : list (string * string);
  req_abort_after : N
}.

(** What comes back from [await fetch(...)] followed by [await res.text()]:
    a response with its [ok] flag, its status and its body, or a rejection.
    The timer firing first makes the rejection an [AbortError]. *)
Inductive reply : Type :=
| Responded (ok : bool) (status : N) (text : string)
| Rejected (e : error).

(** An asynchronous function: it completes, or it sends a request and goes
    on with the reply. *)
Inductive prog (A : Type) : Type :=
| Done (c : completion A)
| Fetch (r : request) (k : reply -> prog A).
Arguments Done {A} c.
Arguments Fetch {A} r k.

Fixpoint prog_bind {A B} (f : A -> prog B) (p : prog A) : prog B :=
  match p with
  | Done (Normal a) => f a
  | Done (Throw e) => Done (Throw e)
  | Fetch r k => Fetch r (fun x => prog_bind f (k x))
  end.

#[export] Instance prog_ret : MRet prog := fun A a => Done (Normal a).
#[export] Instance prog_mbind : MBind prog := fun A B f p => prog_bind f p.

(** Running a program against a network: [net n r] is the reply to the
    request [r] when [n] requests went before it. The result comes with the
    requests sent, in order. *)
Fixpoint run {A} (net : nat -> request -> reply) (n : nat) (p : prog A)
  : completion A * list request :=
  match p with
  | Done c => (c, [])
  | Fetch r k =>
      let (c, sent) := run net (S n) (k (net n r)) in
      (c, r :: sent)
  end.

(** The object [fetchJson] returns. *)
Record FetchResult : Type := {
  res_ok : bool;
  res_status : N;
  res_json : value;
  res_text : string
}.

(** [json] in [fetchJson]: [null] for an empty body and for a body that
    [JSON.parse] rejects. *)
Definition parse_body `{Platform} (text : string) : value :=
  if negb (String.eqb text "") then default VNull (JSON_parse text) else VNull.

(** What [fetchJson] returns for a response. *)
Definition response `{Platform} (ok : bool) (status : N) (text : string)
  : FetchResult :=
  {| res_ok := ok; res_status := status;
     res_json := parse_body text; res_text := text |}.

Definition request_for `{Platform} `{Config} (url : string) : request :=
  {| req_url := url;
     req_method := "GET";
     req_headers :=
       ("Accept", "application/vnd.api+json")
       :: (if negb (String.eqb DRUPAL_BASIC_AUTH "")
           then [("Authorization", "Basic " +:+ base64 DRUPAL_BASIC_AUTH)]
           else []);
     req_abort_after := DRUPAL_TIMEOUT_MS |}.

(** [fetchJson] has a [finally] and no [catch]: a rejection leaves it as an
    exception, after [clearTimeout]. *)
Definition fetchJson `{Platform} `{Config} (url : string) : prog FetchResult :=
  Fetch (request_for url) (fun r =>
    match r with
    | Responded ok status text => mret (response ok status text)
    | Rejected e => Done (Throw e)
    end).

(** ** The lookup *)

Record Dimensioni : Type := {
  altezza : value;
  larghezza : value;
  diametro : value;
  spessore : value
}.

Record Descrizione : Type := {
  descrizione_text : string;
  descrizione_html : value
}.

(** The object returned with [found: true]. *)
Record ResolvedItem : Type := {
  item_id : value;
  item_type : value;
  title : value;
  numero_inventario : value;
  periodo : value;
  data_label : value;
  data_da : value;
  data_a : value;
  acquisizione : value;
  dimensioni : Dimensioni;
  autore : value;
  tipologia : value;
  luogo : value;
  tecnica : value;
  materiale : value;
  schedatore : value;
  descrizione : Descrizione;
  links : value
}.

(** The three objects [lookupOperaByInventario] returns:
    [{found: false, error: "Drupal request failed (...)", details}],
    [{found: false, error: null}] and [{found: true, ...}]. *)
Inductive LookupResult : Type :=
| RequestFailed (error : string) (details : value)
| NotFound
| Found (item : ResolvedItem).

Definition decimal (n : N) : string := NilEmpty.string_of_uint (N.to_uint n).

(** [payload.data[0]] for an array, else [payload?.data]. *)
Definition first_item (payload : value) : value :=
  match optional payload "data" with
  | VArr items => default VUndefined (head items)
  | data => data
  end.

(** [item.relationships?.field?.data]. *)
Definition relationship (item : value) (field : string) : value :=
  optional (optional (get item "relationships") field) "data".

(** Lines 150 to 208 of [lookupOperaByInventario]: what it makes of the
    response it ends with. *)
Definition lookup_result `{Platform} (res : FetchResult) : completion LookupResult :=
  if negb (res_ok res) then
    mret (RequestFailed
            ("Drupal request failed (" +:+ decimal (res_status res) +:+ ")")
            (or_ (or_ (optional (res_json res) "errors")
                      (VStr (substring 0 500 (res_text res))))
                 VNull))
  else
    let payload := res_json res in
    let item := first_item payload in
    if negb (truthy item) then mret NotFound
    else
      let a := or_ (get item "attributes") (VObj []) in
      autore ← resolveIncludedNames payload (relationship item "field_autore");
      tipologia ← resolveIncludedNames payload (relationship item "field_tipologia");
      luogo ← resolveIncludedNames payload (relationship item "field_luogo");
      tecnica ← resolveIncludedNames payload (relationship item "field_tecnica");
      materiale ← resolveIncludedNames payload (relationship item "field_materiale");
      schedatore ← resolveIncludedNames payload (relationship item "field_schedatore");
      let descrizioneHtml :=
        or_ (or_ (optional (get a "field_descrizione") "processed")
                 (optional (get a "field_descrizione") "value"))
            (VStr "") in
      descrizioneText ← stripHtml descrizioneHtml;
      mret (Found
        {| item_id := get item "id";
           item_type := get item "type";
           title := or_ (get a "title") VNull;
           numero_inventario := or_ (get a "field_inventario") VNull;
           periodo := or_ (get a "field_periodo") VNull;
           data_label := or_ (get a "field_data_label") VNull;
           data_da := coalesce (get a "field_data_0") VNull;
           data_a := coalesce (get a "field_data_1") VNull;
           acquisizione := or_ (get a "field_acquisizione") VNull;
           dimensioni :=
             {| altezza := coalesce (get a "field_altezza") VNull;
                larghezza := coalesce (get a "field_larghezza") VNull;
                diametro := coalesce (get a "field_diametro") VNull;
                spessore := coalesce (get a "field_spessore") VNull |};
           autore := autore;
           tipologia := tipologia;
           luogo := luogo;
           tecnica := tecnica;
           materiale := materiale;
           schedatore := schedatore;
           descrizione :=
             {| descrizione_text := descrizioneText;
                descrizione_html := descrizioneHtml |};
           links := or_ (get item "links") VNull |}).

Definition lookupOperaByInventario `{Platform} `{Config}
    (numeroInventario : string) : prog LookupResult :=
  let buildUrl := buildOperaUrlWithFilterParams numeroInventario in
  res ← fetchJson buildUrl;
  res ← (if negb (res_ok res)
            && ((res_status res =? 400)%N || (res_status res =? 403)%N)
         then
           let verboseUrl :=
             buildOperaUrlWithFilterParamsVerboseFallback numeroInventario in
           fetchJson verboseUrl
         else mret res);
  Done (lookup_result res).

(** *** The response a lookup ends with *)

(** The reply is one that [lookupOperaByInventario] answers with a second
    request: not successful, with status 400 or 403. *)
Definition rejected_filter (r : reply) : bool :=
  match r with
  | Responded ok status _ => negb ok && ((status =? 400)%N || (status =? 403)%N)
  | Rejected _ => false
  end.

(** In the words of the specification, the (possibly retried) response:
    the reply to the compact query, or the reply to the verbose query when
    the first was a non-success 400 or 403. *)
Definition last_reply `{Platform} `{Config} (net : nat -> request -> reply)
    (numeroInventario : string) : reply :=
  let first := net 0 (request_for (buildOperaUrlWithFilterParams numeroInventario)) in
  if rejected_filter first
  then net 1 (request_for (buildOperaUrlWithFilterParamsVerboseFallback numeroInventario))
  else first.

(** The documents on which the mapping to a [ResolvedItem] raises no
    [TypeError]: each of the six relationships is well formed for the
    resolver, and the markup of the description is a string. *)
Definition well_formed_document (payload : value) : Prop :=
  let item := first_item payload in
  let a := or_ (get item "attributes") (VObj []) in
  (forall field, In field include_fields ->
                 well_formed payload (relationship item field))
  /\ exists s,
      or_ (or_ (optional (get a "field_descrizione") "processed")
               (optional (get a "field_descrizione") "value"))
          (VStr "") = VStr s.

(** The attributes the item is mapped from. *)
Definition attributes_of (res : FetchResult) : value :=
  or_ (get (first_item (res_json res)) "attributes") (VObj []).

(** The fields read with [??], and the fields read with [||], each with the
    attribute it is read from. *)
Definition nullish_fields : list (string * (ResolvedItem -> value)) :=
  [("field_altezza", fun i => altezza (dimensioni i));
   ("field_larghezza", fun i => larghezza (dimensioni i));
   ("field_diametro", fun i => diametro (dimensioni i));
   ("field_spessore", fun i => spessore (dimensioni i));
   ("field_data_0", data_da);
   ("field_data_1", data_a)].

Definition falsy_fields : list (string * (ResolvedItem -> value)) :=
  [("title", title);
   ("field_inventario", numero_inventario);
   ("field_periodo", periodo);
   ("field_data_label", data_label);
   ("field_acquisizione", acquisizione)].

(** *** A configuration, a platform and documents for the examples *)

Definition example_config : Config :=
  {| DRUPAL_JSONAPI_ENDPOINT :=
       {| url_base := "https://example.org/jsonapi/node/opera";
          searchParams := [];
          url_hash := "" |};
     DRUPAL_BASIC_AUTH := "";
     DRUPAL_TIMEOUT_MS := 10000 |}.

(** The document of the end-to-end example of the specification. *)
Definition vase_document : value :=
  VObj [("data",
         VArr [VObj [("id", VStr "1");
                     ("type", VStr "node--opera");
                     ("attributes",
                      VObj [("title", VStr "Vase");
                            ("field_inventario", VStr "10220")])]])].

Definition quoted (s : string) : string :=
  String (ascii_of_N 34) s +:+ String (ascii_of_N 34) "".

Definition vase_text : string :=
  "{" +:+ quoted "data" +:+ ":[{" +:+ quoted "id" +:+ ":" +:+ quoted "1"
  +:+ "," +:+ quoted "type" +:+ ":" +:+ quoted "node--opera"
  +:+ "," +:+ quoted "attributes" +:+ ":{" +:+ quoted "title" +:+ ":"
  +:+ quoted "Vase" +:+ "," +:+ quoted "field_inventario" +:+ ":"
  +:+ quoted "10220" +:+ "}}]}".

(** A record whose height is 0, whose start date is 0 and whose title is
    the empty string. *)
Definition zero_document : value :=
  VObj [("data",
         VObj [("id", VStr "2");
               ("type", VStr "node--opera");
               ("attributes",
                VObj [("title", VStr "");
                      ("field_periodo", VNum 0);
                      ("field_altezza", VNum 0);
                      ("field_data_0", VNum 0)])])].

Definition zero_response : FetchResult :=
  {| res_ok := true; res_status := 200;
     res_json := zero_document; res_text := "{}" |}.

Definition zero_item : ResolvedItem :=
  {| item_id := VStr "2";
     item_type := VStr "node--opera";
     title := VNull;
     numero_inventario := VNull;
     periodo := VNull;
     data_label := VNull;
     data_da := VNum 0;
     data_a := VNull;
     acquisizione := VNull;
     dimensioni := {| altezza := VNum 0; larghezza := VNull;
                      diametro := VNull; spessore := VNull |};
     autore := VNull;
     tipologia := VNull;
     luogo := VNull;
     tecnica := VNull;
     materiale := VNull;
     schedatore := VNull;
     descrizione := {| descrizione_text := ""; descrizione_html := VStr "" |};
     links := VNull |}.

(** A successful response whose side-loaded set is a string. *)
Definition malformed_response : FetchResult :=
  {| res_ok := true; res_status := 200;
     res_json :=
       VObj [("data",
              VObj [("id", VStr "3");
                    ("relationships",
                     VObj [("field_autore",
                            VObj [("data", ref_to "taxonomy_term" "X")])])]);
             ("included", VStr "none")];
     res_text := "{}" |}.

(** A platform for the examples: its [JSON.parse] reads the text of the
    vase document and rejects any other text; the examples call neither of
    the other two built-ins. *)
Definition example_platform : Platform :=
  {| Number_toString := fun _ => "";
     JSON_parse := fun text =>
       if String.eqb text vase_text then Some vase_document else None;
     base64 := fun s => s |}.

Definition vase_item : ResolvedItem :=
  {| item_id := VStr "1";
     item_type := VStr "node--opera";
     title := VStr "Vase";
     numero_inventario := VStr "10220";
     periodo := VNull;
     data_label := VNull;
     data_da := VNull;
     data_a := VNull;
     acquisizione := VNull;
     dimensioni := {| altezza := VNull; larghezza := VNull;
                      diametro := VNull; spessore := VNull |};
     autore := VNull;
     tipologia := VNull;
     luogo := VNull;
     tecnica := VNull;
     materiale := VNull;
     schedatore := VNull;
     descrizione := {| descrizione_text := ""; descrizione_html := VStr "" |};
     links := VNull |}.

(** Networks for the examples: every request times out; every request is
    answered with status 500 and an empty body; the first request is
    answered with the vase document; the first request is refused with
    status 400 and the second answered with the vase document. *)
Definition net_timeout : nat -> request -> reply :=
  fun _ _ => Rejected AbortError.

Definition net_empty_500 : nat -> request -> reply :=
  fun _ _ => Responded false 500 "".

Definition net_vase : nat -> request -> reply :=
  fun _ _ => Responded true 200 vase_text.

Definition net_retry_vase : nat -> request -> reply :=
  fun n _ =>
    match n with
    | 0 => Responded false 400 "Bad filter"
    | _ => Responded true 200 vase_text
    end.

(** ** Sessions and the [/mcp] handlers *)

(** An entry of the registry: the transport and the server of a session,
    each named by the number of the [buildMcpServer] call that made it. *)
Record Session : Type := {
  transport : nat;
  server : nat
}.

(** The state of the process: [sessions], and how many transport and
    server pairs the POST handler has built. *)
Record State : Type := {
  sessions : gmap string Session;
  built : nat
}.

(** An inbound message: the [mcp-session-id] header, when the request has
    one, and the parsed body. *)
Record Request : Type := {
  mcp_session_id : option string;
  body : value
}.

(** The callbacks a transport may run while it handles a request:
    [onsessioninitialized(newSessionId)], and [onclose()] with the value of
    [transport.sessionId] at that time. *)
Inductive callback : Type :=
| SessionInitialized (newSessionId : string)
| Closed (sessionId : option string).

(** What [await transport.handleRequest(...)] does as far as [server.js]
    sees: it runs callbacks, and then returns or throws, the response
    headers being sent or not. [server.connect(transport)] is counted with
    it. *)
Record handled : Type := {
  callbacks : list callback;
  threw : bool;
  headersSent : bool
}.

(** The SDK as [server.js] uses it. *)
Class SDK : Type := {
  isInitializeRequest : value -> bool;
  handleRequest : nat -> Request -> handled
}.

Inductive Response : Type :=
| JsonRpcError (status : N) (code : Z) (message : string)
| PlainText (status : N) (text : string)
| ByTransport
| Uncaught.

(** [sessions.set(newSessionId, {transport, server})] in
    [onsessioninitialized], and
    [if (transport.sessionId) sessions.delete(transport.sessionId)] in
    [onclose]. *)
Definition run_callback (session : Session) (registry : gmap string Session)
    (cb : callback) : gmap string Session :=
  match cb with
  | SessionInitialized newSessionId => <[newSessionId := session]> registry
  | Closed (Some sessionId) =>
      if negb (String.eqb sessionId "") then delete sessionId registry
      else registry
  | Closed None => registry
  end.

(** A header value is truthy when it is there and not empty. *)
Definition present (header : option string) : bool :=
  match header with
  | Some id => negb (String.eqb id "")
  | None => false
  end.

(** [sessionId ? sessions.get(sessionId) : null]. *)
Definition find_session (st : State) (header : option string) : option Session :=
  match header with
  | Some id => if negb (String.eqb id "") then sessions st !! id else None
  | None => None
  end.

(** The hand-over to a transport, with the callbacks it runs applied to the
    registry. *)
Definition hand_over `{SDK} (st : State) (session : Session) (req : Request)
  : State * handled :=
  let h := handleRequest (transport session) req in
  ({| sessions := foldl (run_callback session) (sessions st) (callbacks h);
      built := built st |}, h).

(** [app.post("/mcp", ...)]. *)
Definition post_mcp `{SDK} (st : State) (req : Request) : State * Response :=
  let sessionId := mcp_session_id req in
  let caught (h : handled) : Response :=
    if threw h && negb (headersSent h)
    then JsonRpcError 500 (-32603) "Internal server error"
    else ByTransport in
  match find_session st sessionId with
  | Some session =>
      let (st', h) := hand_over st session req in
      (st', caught h)
  | None =>
      if negb (present sessionId) && isInitializeRequest (body req) then
        let session := {| transport := built st; server := built st |} in
        let st1 := {| sessions := sessions st; built := S (built st) |} in
        let (st', h) := hand_over st1 session req in
        (st', caught h)
      else
        (st, JsonRpcError 400 (-32000) "Bad Request: No valid session ID provided")
  end.

(** [app.get("/mcp", ...)] and [app.delete("/mcp", ...)], which have the
    same body and no [catch]. *)
Definition get_mcp `{SDK} (st : State) (req : Request) : State * Response :=
  match find_session st (mcp_session_id req) with
  | None => (st, PlainText 400 "Invalid or missing session ID")
  | Some session =>
      let (st', h) := hand_over st session req in
      (st', if threw h then Uncaught else ByTransport)
  end.

Definition delete_mcp `{SDK} (st : State) (req : Request) : State * Response :=
  get_mcp st req.

(** *** An SDK for the examples *)

(** Its [isInitializeRequest] looks at the method only; its transports
    answer an initialization by registering the session under the id
    [session-] followed by their number, and run no callback otherwise. *)
Definition example_sdk : SDK :=
  {| isInitializeRequest := fun message =>
       strict_eq (get message "method") (VStr "initialize");
     handleRequest := fun transport req =>
       {| callbacks :=
            if strict_eq (get (body req) "method") (VStr "initialize")
            then [SessionInitialized ("session-" +:+ decimal (N.of_nat transport))]
            else [];
          threw := false;
          headersSent := true |} |}.

Definition initialize_message : value :=
  VObj [("jsonrpc", VStr "2.0"); ("id", VNum 1); ("method", VStr "initialize");
        ("params", VObj [("protocolVersion", VStr "2025-03-26");
                         ("capabilities", VObj []);
                         ("clientInfo", VObj [("name", VStr "client");
                                              ("version", VStr "1")])])].

Definition tool_call_message : value :=
  VObj [("jsonrpc", VStr "2.0"); ("id", VNum 2); ("method", VStr "tools/call")].

Definition no_sessions : State := {| sessions := ∅; built := 0 |}.

(** ** The tool *)

(** [result.found] and [result.error] on the three objects the lookup
    returns; the object with [found: true] has no [error]. *)
Definition found (result : LookupResult) : bool :=
  match result with
  | Found _ => true
  | _ => false
  end.

Definition error_of (result : LookupResult) : value :=
  match result with
  | RequestFailed error _ => VStr error
  | NotFound => VNull
  | Found _ => VUndefined
  end.

(** [result.title] and [result.numero_inventario]: only the object with
    [found: true] has them. *)
Definition title_of (result : LookupResult) : value :=
  match result with
  | Found item => title item
  | _ => VUndefined
  end.

Definition numero_inventario_of (result : LookupResult) : value :=
  match result with
  | Found item => numero_inventario item
  | _ => VUndefined
  end.

(** An entry of [content]. *)
Record TextContent : Type := {
  content_type : string;
  content_text : string
}.

(** What the tool returns. *)
Record ToolResult : Type := {
  structuredContent : LookupResult;
  content : list TextContent
}.

(** The callback registered as [get_opera_by_inventario]; [numero] is its
    argument [numero_inventario]. A template literal converts what it
    interpolates as [String] does. *)
Definition get_opera_by_inventario `{Platform} `{Config} (numero : string)
  : prog ToolResult :=
  result ← lookupOperaByInventario numero;
  if negb (found result) then
    Done (text ← (if truthy (error_of result)
                  then
                    error ← String_ (error_of result);
                    mret ("No item found or request failed for inventario "
                            +:+ numero +:+ ": " +:+ error)
                  else mret ("No item found for inventario " +:+ numero));
          mret {| structuredContent := result;
                  content := [{| content_type := "text"; content_text := text |}] |})
  else
    Done (t ← String_ (title_of result);
          n ← String_ (numero_inventario_of result);
          mret {| structuredContent := result;
                  content :=
                    [{| content_type := "text";
                        content_text :=
                          "Found: " +:+ t +:+ " (inventario " +:+ n +:+ ")" |}] |}).

(** ** Reading a query back *)

(** The value of a hexadecimal digit, upper case as [form_byte] writes
    it. *)
Definition hex_value (c : ascii) : option N :=
  let n := N_of_ascii c in
  if (48 <=? n)%N && (n <=? 57)%N then Some (n - 48)%N
  else if (65 <=? n)%N && (n <=? 70)%N then Some (n - 55)%N
  else None.

Definition hex_byte (h1 h2 : ascii) : option N :=
  a ← hex_value h1; b ← hex_value h2; Some (16 * a + b)%N.

(** The reading of an [application/x-www-form-urlencoded] value: [+] is a
    space, [%XX] a byte, and two bytes of which the first is at least 128
    are the UTF-8 form of one code unit below 256. Anything else is taken as
    it stands. *)
Fixpoint form_decode (s : list ascii) : list ascii :=
  match s with
  | [] => []
  | c :: rest =>
      if Ascii.eqb c "+" then " "%char :: form_decode rest
      else if Ascii.eqb c "%" then
        match rest with
        | h1 :: h2 :: rest2 =>
            match hex_byte h1 h2 with
            | Some b =>
                if (b <? 128)%N then ascii_of_N b :: form_decode rest2
                else
                  match rest2 with
                  | p :: h3 :: h4 :: rest5 =>
                      match (if Ascii.eqb p "%" then hex_byte h3 h4 else None) with
                      | Some b2 =>
                          ascii_of_N ((b - 192) * 64 + (b2 - 128))
                          :: form_decode rest5
                      | None => c :: form_decode rest
                      end
                  | _ => c :: form_decode rest
                  end
            | None => c :: form_decode rest
            end
        | _ => c :: form_decode rest
        end
      else c :: form_decode rest
  end.

(** The characters [form_byte] writes: letters, digits, and
    [* - . _ + %]. *)
Definition form_safe (c : ascii) : bool :=
  let n := N_of_ascii c in
  ((48 <=? n) && (n <=? 57) || (65 <=? n) && (n <=? 90)
   || (97 <=? n) && (n <=? 122)
   || (n =? 42) || (n =? 45) || (n =? 46) || (n =? 95)
   || (n =? 43) || (n =? 37))%N.

(** The URL objects the two builders serialise. *)
Definition compact_url `{Config} (numeroInventario : string) : URL :=
  set "include" (join "," include_fields)
    (set "filter[field_inventario]" numeroInventario
       (set "page[limit]" "1" DRUPAL_JSONAPI_ENDPOINT)).

Definition verbose_url `{Config} (numeroInventario : string) : URL :=
  set "include" (join "," include_fields)
    (set "filter[inventario][condition][value]" numeroInventario
       (set "filter[inventario][condition][operator]" "="
          (set "filter[inventario][condition][path]" "field_inventario"
             (set "page[limit]" "1" DRUPAL_JSONAPI_ENDPOINT)))).

(** The pairs of a query that bear a given name, in order. *)
Definition named (name : string) (l : list (string * string))
  : list (string * string) :=
  List.filter (fun p => String.eqb (fst p) name) l.

(** An endpoint that comes with a query of its own. *)
Definition config_with_query : Config :=
  {| DRUPAL_JSONAPI_ENDPOINT :=
       {| url_base := "https://example.org/jsonapi/node/opera";
          searchParams := [("include", "field_luogo"); ("sort", "title");
                           ("page[limit]", "50"); ("include", "uid")];
          url_hash := "" |};
     DRUPAL_BASIC_AUTH := "user:secret";
     DRUPAL_TIMEOUT_MS := 2500 |}.

(** *** Base64, for the examples *)

Definition base64_digit (n : N) : ascii :=
  if (n <? 26)%N then ascii_of_N (65 + n)
  else if (n <? 52)%N then ascii_of_N (71 + n)
  else if (n <? 62)%N then ascii_of_N (n - 4)
  else if (n =? 62)%N then "+"%char else "/"%char.

Fixpoint base64_bytes (l : list N) : list ascii :=
  match l with
  | [] => []
  | [a] =>
      [base64_digit (a / 4); base64_digit (a mod 4 * 16); "="%char; "="%char]
  | [a; b] =>
      [base64_digit (a / 4); base64_digit (a mod 4 * 16 + b / 16);
       base64_digit (b mod 16 * 4); "="%char]
  | a :: b :: c :: rest =>
      base64_digit (a / 4) :: base64_digit (a mod 4 * 16 + b / 16)
        :: base64_digit (b mod 16 * 4 + c / 64) :: base64_digit (c mod 64)
        :: base64_bytes rest
  end%N.

(** [Buffer.from(s).toString("base64")]: the Base64 form of the UTF-8
    bytes of [s]. *)
Definition base64_of_string (s : string) : string :=
  string_of_list_ascii
    (base64_bytes (List.concat (List.map utf8 (list_ascii_of_string s)))).

(** The platform of the examples, with this Base64. *)
Definition example_platform_base64 : Platform :=
  {| Number_toString := @Number_toString example_platform;
     JSON_parse := @JSON_parse example_platform;
     base64 := base64_of_string |}.

(** A record with a description in both forms, as a list of one and as a
    single resource. *)
Definition described_resource : value :=
  VObj [("id", VStr "4");
        ("type", VStr "node--opera");
        ("attributes",
         VObj [("title", VStr "Vaso");
               ("field_descrizione",
                VObj [("value", VStr "Un vaso.");
                      ("processed", VStr "<p>Un <b>vaso</b>.</p>")])])].

Definition described_response (data : value) : FetchResult :=
  {| res_ok := true; res_status := 200;
     res_json := VObj [("data", data)]; res_text := "{}" |}.

(** Networks for the examples: every request is answered by a gateway
    with status 502 and a page of markup; the first request is refused with
    400 and the second with 403. *)
Definition net_gateway : nat -> request -> reply :=
  fun _ _ => Responded false 502 "<html>Bad gateway</html>".

Definition net_refused_twice : nat -> request -> reply :=
  fun n _ =>
    match n with
    | 0 => Responded false 400 "Bad filter"
    | _ => Responded false 403 "denied"
    end.

(** ** The server over a sequence of messages *)

(** A message to [/mcp], by its verb. *)
Inductive message : Type :=
| POST (req : Request)
| GET (req : Request)
| DELETE (req : Request).

Definition handle `{SDK} (st : State) (m : message) : State * Response :=
  match m with
  | POST req => post_mcp st req
  | GET req => get_mcp st req
  | DELETE req => delete_mcp st req
  end.

(** The state after a sequence of messages, each handled to its end before
    the next. *)
Definition serve `{SDK} (st : State) (messages : list message) : State :=
  foldl (fun st m => fst (handle st m)) st messages.

Definition is_post (m : message) : bool :=
  match m with
  | POST _ => true
  | _ => false
  end.

(** Every session of the registry holds a transport that the POST handler
    built, and the server built with it. *)
Definition registry_built (st : State) : Prop :=
  forall id session,
    sessions st !! id = Some session ->
    transport session < built st /\ server session = transport session.

(** An SDK whose transports close their session on every message after the
    initialization, and one whose transports throw before any header is
    sent. *)
Definition closing_sdk : SDK :=
  {| isInitializeRequest := @isInitializeRequest example_sdk;
     handleRequest := fun transport req =>
       {| callbacks :=
            if strict_eq (get (body req) "method") (VStr "initialize")
            then [SessionInitialized ("session-" +:+ decimal (N.of_nat transport))]
            else [Closed (Some ("session-" +:+ decimal (N.of_nat transport)))];
          threw := false;
          headersSent := true |} |}.

Definition throwing_sdk : SDK :=
  {| isInitializeRequest := @isInitializeRequest example_sdk;
     handleRequest := fun transport req =>
       {| callbacks :=
            if strict_eq (get (body req) "method") (VStr "initialize")
            then [SessionInitialized ("session-" +:+ decimal (N.of_nat transport))]
            else [];
          threw := negb (strict_eq (get (body req) "method") (VStr "initialize"));
          headersSent := false |} |}.

Definition one_session : State :=
  {| sessions := {["session-0" := {| transport := 0; server := 0 |}]};
     built := 1 |}.
(** ** Properties of the resolver *)

Lemma display_name_truthy_or_null resource :
  truthy (display_name resource) = true \/ display_name resource = VNull.
Proof.
  unfold display_name.
  destruct (truthy (optional (get resource "attributes") "name")) eqn:Hn; [by left|].
  destruct (truthy (optional (get resource "attributes") "title")) eqn:Ht; [by left|by right].
Qed.

Lemma resolved_name_truthy_or_null side_loaded ref :
  truthy (resolved_name side_loaded ref) = true \/ resolved_name side_loaded ref = VNull.
Proof.
  unfold resolved_name. destruct (List.find _ _); [apply display_name_truthy_or_null|by right].
Qed.

Lemma find_first_pure (f : value -> completion bool) (g : value -> bool) items :
  Forall (fun x => f x = Normal (g x)) items ->
  find_first f items = Normal (default VUndefined (List.find g items)).
Proof.
  induction 1 as [|x rest Hx _ IH]; [done|].
  cbn [find_first List.find]. rewrite Hx. cbn. destruct (g x); [done|exact IH].
Qed.

Lemma find_first_same_ref side_loaded ref :
  no_null side_loaded -> nullish ref = false ->
  find_first (fun x =>
    xt ← member x "type";
    rt ← member ref "type";
    if strict_eq xt rt then
      xi ← member x "id";
      ri ← member ref "id";
      mret (strict_eq xi ri)
    else mret false) side_loaded
  = Normal (default VUndefined (List.find (same_ref ref) side_loaded)).
Proof.
  intros Hs Hr. apply find_first_pure.
  eapply Forall_impl; [exact Hs|]. intros x Hx. cbn beta in Hx.
  unfold member, same_ref. rewrite Hx, Hr. cbn.
  destruct (strict_eq (get x "type") (get ref "type")); done.
Qed.

Lemma resolveOne_resolved_name side_loaded ref :
  no_null side_loaded -> nullish ref = false ->
  resolveOne (VArr side_loaded) ref = Normal (resolved_name side_loaded ref).
Proof.
  intros Hs Hr. unfold resolveOne, Array_find.
  rewrite (find_first_same_ref _ _ Hs Hr). cbn.
  unfold resolved_name, display_name, or_.
  destruct (List.find (same_ref ref) side_loaded) as [r|]; cbn; [|done].
  destruct (truthy r) eqn:Hr'; cbn.
  - destruct (truthy (optional (get r "attributes") "name")) eqn:Hn;
      rewrite ?Hn; [done|].
    destruct (truthy (optional (get r "attributes") "title")) eqn:Ht;
      rewrite ?Ht; done.
  - destruct r; try discriminate; done.
Qed.

Lemma mapM_completion_cons {A B} (f : A -> completion B) x l :
  mapM f (x :: l) = (y ← f x; k ← mapM f l; mret (y :: k)).
Proof. reflexivity. Qed.

Lemma mapM_resolveOne side_loaded refs :
  no_null side_loaded -> no_null refs ->
  mapM (resolveOne (VArr side_loaded)) refs
  = Normal (List.map (resolved_name side_loaded) refs).
Proof.
  intros Hs Hr. induction Hr as [|ref rest Href _ IH]; [done|].
  rewrite mapM_completion_cons, (resolveOne_resolved_name _ _ Hs Href), IH.
  done.
Qed.

Lemma filter_truthy_resolved side_loaded refs :
  List.filter truthy (List.map (resolved_name side_loaded) refs)
  = List.filter (fun n => negb (is_null n)) (List.map (resolved_name side_loaded) refs).
Proof.
  induction refs as [|ref rest IH]; [done|]. cbn [List.map List.filter].
  rewrite IH.
  destruct (resolved_name_truthy_or_null side_loaded ref) as [H|H]; rewrite H.
  - destruct (resolved_name side_loaded ref); try discriminate; done.
  - done.
Qed.

Lemma truthy_not_nullish v : truthy v = true -> nullish v = false.
Proof. destruct v; done. Qed.

Lemma filter_truthy_all (l : list value) :
  Forall (fun n => truthy n = true) (List.filter truthy l).
Proof.
  induction l as [|x l IH]; cbn; [constructor|].
  destruct (truthy x) eqn:Hx; [by constructor|done].
Qed.

(** The spec's examples (section 8, property 4): one reference to a resource
    named Oil; two references, in the order given; a reference that matches
    nothing. *)
Example resolve_single_reference :
  resolveIncludedNames document_with_terms (ref_to "taxonomy_term" "X")
  = Normal (VStr "Oil").
Proof. reflexivity. Qed.

Example resolve_list_keeps_order :
  resolveIncludedNames document_with_terms
    (VArr [ref_to "taxonomy_term" "W"; ref_to "taxonomy_term" "X"])
  = Normal (VArr [VStr "Canvas"; VStr "Oil"]).
Proof. reflexivity. Qed.

Example resolve_unmatched :
  resolveIncludedNames document_with_terms (ref_to "taxonomy_term" "none")
  = Normal VNull
  /\ resolveIncludedNames document_with_terms
       (VArr [ref_to "taxonomy_term" "none"; ref_to "taxonomy_term" "X"])
     = Normal (VArr [VStr "Oil"]).
Proof. split; reflexivity. Qed.

Lemma well_formed_document_with_terms refs :
  no_null refs -> well_formed document_with_terms (VArr refs).
Proof.
  intros Hr _ _. exists side_loaded_terms. split; [reflexivity|]. split.
  - repeat constructor.
  - intros refs' [= <-]. exact Hr.
Qed.

Lemma well_formed_single_ref type id :
  well_formed document_with_terms (ref_to type id).
Proof.
  intros _ _. exists side_loaded_terms. split; [reflexivity|]. split.
  - repeat constructor.
  - intros refs' [=].
Qed.

Lemma resolveIncludedNames_returns document reference :
  well_formed document reference ->
  exists names, resolveIncludedNames document reference = Normal names.
Proof.
  intros Hwf. unfold resolveIncludedNames.
  destruct (truthy (optional document "included")) eqn:Hinc; cbn; [|eauto].
  destruct (truthy reference) eqn:Href; cbn; [|eauto].
  destruct (Hwf Hinc Href) as (side_loaded & -> & Hs & Hrefs).
  destruct reference as [| | | | |refs|]; try discriminate;
    try (rewrite resolveOne_resolved_name; [eauto|exact Hs|done]).
  rewrite (mapM_resolveOne _ _ Hs (Hrefs _ eq_refl)). cbn. eauto.
Qed.

(** C3 (as amended). On a document whose side-loaded set, when there is
    one, is a list without null entries, and for a reference without null
    entries, [resolveIncludedNames] returns what [resolveNames] describes:
    null when the document has no side-loaded set or the reference is
    absent; for a single reference the display name of the first
    side-loaded resource with the same type and id, which is its name
    attribute when that is present and not empty (truthy), else its title
    attribute when that is present and not empty, else null; for a list
    reference the list of those names in the order of the references, the
    nulls dropped. It does not throw. *)
Theorem resolveIncludedNames_resolveNames document reference :
  well_formed document reference ->
  resolveIncludedNames document reference
  = Normal (resolveNames document reference).
Proof.
  intros Hwf. unfold resolveIncludedNames, resolveNames.
  destruct (truthy (optional document "included")) eqn:Hinc; cbn; [|done].
  destruct (truthy reference) eqn:Href; cbn.
  2:{ destruct reference; done. }
  destruct (Hwf Hinc Href) as (side_loaded & -> & Hs & Hrefs).
  destruct reference as [| | | | |refs|]; try discriminate;
    try (apply resolveOne_resolved_name; [exact Hs|done]).
  rewrite (mapM_resolveOne _ _ Hs (Hrefs _ eq_refl)). cbn.
  by rewrite filter_truthy_resolved.
Qed.

Lemma resolveIncludedNames_resolveNames_witness :
  well_formed document_with_terms
    (VArr [ref_to "taxonomy_term" "W"; ref_to "taxonomy_term" "Y";
           ref_to "taxonomy_term" "Z"; ref_to "taxonomy_term" "X"])
  /\ resolveIncludedNames document_with_terms
       (VArr [ref_to "taxonomy_term" "W"; ref_to "taxonomy_term" "Y";
              ref_to "taxonomy_term" "Z"; ref_to "taxonomy_term" "X"])
     = Normal (VArr [VStr "Canvas"; VStr "Olio"; VStr "Oil"]).
Proof.
  assert (Hr : no_null [ref_to "taxonomy_term" "W"; ref_to "taxonomy_term" "Y";
                        ref_to "taxonomy_term" "Z"; ref_to "taxonomy_term" "X"])
    by (repeat constructor).
  split; [exact (well_formed_document_with_terms _ Hr)|].
  exact (eq_trans
           (resolveIncludedNames_resolveNames _ _
              (well_formed_document_with_terms _ Hr))
           eq_refl).
Defined.

(** C3 (as stated) fails: the resource of type taxonomy_term and id Y is
    found in the side-loaded set and has a name attribute, the empty string,
    yet the resolver answers with its title. *)
Lemma resolveIncludedNames_present_name_skipped :
  List.find (same_ref (ref_to "taxonomy_term" "Y")) side_loaded_terms
  = Some blank_name_resource
  /\ get (get blank_name_resource "attributes") "name" = VStr ""
  /\ resolveIncludedNames document_with_terms (ref_to "taxonomy_term" "Y")
     = Normal (VStr "Olio")
  /\ resolveIncludedNames document_with_terms (ref_to "taxonomy_term" "Y")
     <> Normal (get (get blank_name_resource "attributes") "name").
Proof. repeat split; try reflexivity. discriminate. Qed.

(** C10. An empty name counts as absent. A matched resource whose name
    attribute is the empty string resolves to its title attribute, or to
    null when that is falsy too. In the list form every entry of the
    returned list is truthy: the list is the resolved names of the
    references, in order, without the falsy ones, so a matched resource with
    an empty name and no title is dropped just as an unmatched reference
    is. *)
Theorem resolveIncludedNames_empty_name_absent :
  (forall side_loaded ref resource,
      no_null side_loaded -> nullish ref = false ->
      List.find (same_ref ref) side_loaded = Some resource ->
      optional (get resource "attributes") "name" = VStr "" ->
      resolveOne (VArr side_loaded) ref
      = Normal (or_ (optional (get resource "attributes") "title") VNull))
  /\ (forall document refs names,
         resolveIncludedNames document (VArr refs) = Normal (VArr names) ->
         Forall (fun n => truthy n = true) names)
  /\ (forall document side_loaded refs,
         get document "included" = VArr side_loaded ->
         no_null side_loaded -> no_null refs ->
         resolveIncludedNames document (VArr refs)
         = Normal (VArr (List.filter truthy
                           (List.map (resolved_name side_loaded) refs)))).
Proof.
  split; [|split].
  - intros side_loaded ref resource Hs Hr Hfind Hname.
    rewrite (resolveOne_resolved_name _ _ Hs Hr).
    unfold resolved_name, display_name, or_. rewrite Hfind, Hname. done.
  - intros document refs names. unfold resolveIncludedNames.
    destruct (negb (truthy (optional document "included")) || negb (truthy (VArr refs)));
      [discriminate|].
    destruct (mapM _ refs) as [l|e]; cbn; [|discriminate].
    intros [= <-]. apply filter_truthy_all.
  - intros document side_loaded refs Hinc Hs Hr. unfold resolveIncludedNames.
    assert (Hopt : optional document "included" = VArr side_loaded).
    { destruct document; try discriminate. exact Hinc. }
    rewrite Hopt, Hinc. cbn. by rewrite (mapM_resolveOne _ _ Hs Hr).
Qed.

Lemma resolveIncludedNames_empty_name_absent_witness :
  resolveOne (VArr side_loaded_terms) (ref_to "taxonomy_term" "Y")
  = Normal (VStr "Olio")
  /\ resolveOne (VArr side_loaded_terms) (ref_to "taxonomy_term" "Z")
     = Normal VNull
  /\ Forall (fun n => truthy n = true) [VStr "Olio"; VStr "Oil"]
  /\ resolveIncludedNames document_with_terms
       (VArr [ref_to "taxonomy_term" "Z"; ref_to "taxonomy_term" "Y";
              ref_to "taxonomy_term" "none"; ref_to "taxonomy_term" "X"])
     = Normal (VArr [VStr "Olio"; VStr "Oil"]).
Proof.
  assert (Hs : no_null side_loaded_terms) by (repeat constructor).
  assert (Hr : no_null [ref_to "taxonomy_term" "Z"; ref_to "taxonomy_term" "Y";
                        ref_to "taxonomy_term" "none"; ref_to "taxonomy_term" "X"])
    by (repeat constructor).
  split; [|split; [|split]].
  - exact (proj1 resolveIncludedNames_empty_name_absent
             side_loaded_terms (ref_to "taxonomy_term" "Y") blank_name_resource
             Hs eq_refl eq_refl eq_refl).
  - exact (proj1 resolveIncludedNames_empty_name_absent
             side_loaded_terms (ref_to "taxonomy_term" "Z") nameless_resource
             Hs eq_refl eq_refl eq_refl).
  - exact (proj1 (proj2 resolveIncludedNames_empty_name_absent)
             document_with_terms
             [ref_to "taxonomy_term" "Z"; ref_to "taxonomy_term" "Y";
              ref_to "taxonomy_term" "none"; ref_to "taxonomy_term" "X"]
             [VStr "Olio"; VStr "Oil"] eq_refl).
  - exact (proj2 (proj2 resolveIncludedNames_empty_name_absent)
             document_with_terms side_loaded_terms _ eq_refl Hs Hr).
Defined.

(** ** Properties of the markup stripper *)

Section ReplaceAll.
Variable m : list ascii -> option nat.
Variable rep : list ascii.

Lemma replace_all_nil : replace_all m rep [] = [].
Proof. by simp replace_all. Qed.

Lemma replace_all_match c rest n :
  m (c :: rest) = Some n ->
  replace_all m rep (c :: rest) = rep ++ replace_all m rep (drop (pred n) rest).
Proof. intros H. simp replace_all. rewrite H. done. Qed.

Lemma replace_all_skip c rest :
  m (c :: rest) = None ->
  replace_all m rep (c :: rest) = c :: replace_all m rep rest.
Proof. intros H. simp replace_all. rewrite H. done. Qed.

(** Induction along the scan of [replace_all]. *)
Lemma replace_all_scan (P : list ascii -> Prop) :
  P [] ->
  (forall c rest n, m (c :: rest) = Some n ->
     P (drop (pred n) rest) -> P (c :: rest)) ->
  (forall c rest, m (c :: rest) = None -> P rest -> P (c :: rest)) ->
  forall s, P s.
Proof.
  intros Hnil Hmatch Hskip s.
  remember (length s) as k eqn:Hk. revert s Hk.
  induction k as [k IH] using lt_wf_ind. intros [|c rest] Hk; [done|].
  destruct (m (c :: rest)) as [n|] eqn:Hm.
  - apply (Hmatch _ _ _ Hm). eapply IH; [|reflexivity].
    subst k. cbn. rewrite length_drop. lia.
  - apply (Hskip _ _ Hm). eapply IH; [|reflexivity]. subst k. cbn. lia.
Qed.

Lemma elem_of_replace_all x s :
  In x (replace_all m rep s) -> In x rep \/ In x s.
Proof.
  induction s as [|c rest n Hm IH|c rest Hm IH] using replace_all_scan.
  - rewrite replace_all_nil. by right.
  - rewrite (replace_all_match _ _ _ Hm). rewrite in_app_iff.
    intros [H|H]; [by left|]. destruct (IH H) as [H'|H']; [by left|].
    right. right. rewrite <- (take_drop (pred n) rest). apply in_or_app.
    by right.
  - rewrite (replace_all_skip _ _ Hm). cbn. intros [H|H]; [right; by left|].
    destruct (IH H); [by left|right; by right].
Qed.
End ReplaceAll.

Lemma index_of_None x s : index_of x s = None <-> ~ In x s.
Proof.
  induction s as [|c rest IH]; cbn; [tauto|].
  destruct (Ascii.eqb_spec c x) as [->|Hne].
  - split; [discriminate|]. intros H. exfalso. apply H. by left.
  - destruct (index_of x rest); cbn.
    + split; [discriminate|]. intros H. exfalso. apply H. right.
      destruct (in_dec ascii_dec x rest) as [Hin|Hnin]; [exact Hin|].
      apply IH in Hnin. discriminate.
    + split; [|done]. intros _ [H|H]; [done|]. by apply IH in H.
Qed.

Lemma index_of_zero x s : index_of x s = Some 0 <-> exists rest, s = x :: rest.
Proof.
  destruct s as [|c rest]; cbn.
  - split; [discriminate|]. by intros [? ?].
  - destruct (Ascii.eqb_spec c x) as [->|Hne].
    + split; [eauto|done].
    + split.
      * destruct (index_of x rest); discriminate.
      * intros [rest' [= -> ->]]. done.
Qed.

(** The tag pattern fails at [c :: rest] exactly when [c] is not [<], or
    [>] follows at once, or no [>] follows at all. *)
Lemma match_tag_None c rest :
  match_tag (c :: rest) = None
  <-> c <> "<"%char \/ index_of ">" rest = Some 0 \/ index_of ">" rest = None.
Proof.
  unfold match_tag.
  destruct (ascii_dec c "<") as [->|Hne].
  - destruct (index_of ">" rest) as [[|j]|]; split; try done; try tauto.
    + intros [H|[H|H]]; done.
  - assert (H : match c with
                | "<"%char => match index_of ">" rest with
                              | Some (S j) => Some (S (S (S j)))
                              | _ => None
                              end
                | _ => None
                end = None).
    { destruct c as [[] [] [] [] [] [] [] []]; try reflexivity. done. }
    rewrite H. tauto.
Qed.

Lemma no_tag_drop k s : no_tag s -> no_tag (drop k s).
Proof.
  revert s. induction k as [|k IH]; intros [|c rest]; cbn; try done.
  intros [_ H]. by apply IH.
Qed.

Lemma no_tag_prefix p q : no_tag (p ++ q) -> no_tag p.
Proof.
  induction p as [|c p IH]; [done|]. cbn [app no_match]. intros [Hm Hrest].
  split; [|by apply IH].
  apply match_tag_None. apply match_tag_None in Hm.
  destruct Hm as [H|[H|H]]; [by left|right..].
  - apply index_of_zero in H as [rest Hrest'].
    destruct p as [|d p]; [by right|]. left.
    injection Hrest' as -> _. apply index_of_zero. eauto.
  - right. apply index_of_None. apply index_of_None in H.
    intros Hin. apply H, in_or_app. by left.
Qed.

Lemma tags_within_drop m k s : tags_within m s -> tags_within m (drop k s).
Proof.
  revert s. induction k as [|k IH]; intros [|c rest]; cbn; try done.
  intros [_ H]. by apply IH.
Qed.

Lemma tags_within_match_tag s : tags_within match_tag s.
Proof. induction s; cbn; [done|]. split; [done|assumption]. Qed.

Lemma no_tag_tags_within m s : no_tag s -> tags_within m s.
Proof.
  induction s as [|c rest IH]; [done|]. cbn [no_match tags_within].
  intros [H Hrest]. split; [done|by apply IH].
Qed.

(** A pass that replaces its matches by one space leaves no tag, provided
    its pattern does not start at [>] and the tag pattern matches only where
    the pass does. *)
Lemma replace_all_no_tag m s :
  (forall t, m (">"%char :: t) = None) ->
  tags_within m s ->
  no_tag (replace_all m [" "%char] s).
Proof.
  intros Hgt.
  induction s as [|c rest n Hm IH|c rest Hm IH] using (replace_all_scan m).
  - intros _. by rewrite replace_all_nil.
  - intros [_ Hw]. rewrite (replace_all_match _ _ _ _ _ Hm). cbn [app no_match].
    split; [done|]. apply IH. by apply tags_within_drop.
  - intros [Ht Hw]. rewrite (replace_all_skip _ _ _ _ Hm). cbn [no_match].
    split; [|by apply IH].
    apply match_tag_None. destruct (proj1 (match_tag_None _ _) (Ht Hm)) as [H|[H|H]].
    + by left.
    + right. left. apply index_of_zero in H as [t ->].
      rewrite (replace_all_skip _ _ _ _ (Hgt t)). done.
    + right. right. apply index_of_None. apply index_of_None in H.
      intros Hin. apply elem_of_replace_all in Hin as [[Hin|[]]|Hin]; done.
Qed.

Lemma replace_all_id m rep s : no_match m s -> replace_all m rep s = s.
Proof.
  induction s as [|c rest IH]; [intros _; apply replace_all_nil|].
  intros [Hm Hrest]. rewrite (replace_all_skip _ _ _ _ Hm). f_equal. by apply IH.
Qed.

Lemma after_prefix_In pat s rest x :
  after_prefix pat s = Some rest -> In x rest -> In x s.
Proof.
  revert s. induction pat as [|p pat IH]; intros s; cbn.
  - destruct s; intros [= <-]; done.
  - destruct s as [|c s]; [done|]. destruct (same_letter p c); [|done].
    intros H Hin. right. by apply IH.
Qed.

Lemma same_letter_lt c : same_letter "<" c = true -> c = "<"%char.
Proof. destruct c as [[] [] [] [] [] [] [] []]; done. Qed.

(** A block pattern whose literal opening is [<] and then a character other
    than [>] matches only where the tag pattern does. *)
Lemma match_block_tag o1 opening closing s :
  same_letter o1 ">" = false ->
  match_tag s = None ->
  match_block ("<"%char :: o1 :: opening) closing s = None.
Proof.
  intros Ho Htag. unfold match_block.
  destruct (after_prefix _ s) as [rest|] eqn:Hpre; [|done]. cbn.
  destruct (index_of ">" rest) as [j|] eqn:Hgt; [|done]. exfalso.
  destruct s as [|c0 [|c1 s]]; cbn in Hpre; try done.
  { destruct (same_letter "<" c0); done. }
  destruct (same_letter "<" c0) eqn:H0; [|done].
  apply same_letter_lt in H0 as ->.
  destruct (same_letter o1 c1) eqn:H1; [|done].
  assert (Hin : In ">"%char s).
  { eapply after_prefix_In; [exact Hpre|].
    destruct (in_dec ascii_dec ">"%char rest) as [H|H]; [done|].
    apply index_of_None in H. congruence. }
  apply match_tag_None in Htag as [H|[H|H]]; [done|..].
  - apply index_of_zero in H as [t [= -> _]]. congruence.
  - apply index_of_None in H. apply H. by right.
Qed.

Lemma no_tag_no_block o1 opening closing s :
  same_letter o1 ">" = false ->
  no_tag s -> no_match (match_block ("<"%char :: o1 :: opening) closing) s.
Proof.
  intros Ho. induction s as [|c rest IH]; [done|]. cbn [no_match].
  intros [H Hrest]. split; [by apply match_block_tag|by apply IH].
Qed.

(** White space. *)

Lemma match_space_gt t : match_space (">"%char :: t) = None.
Proof. reflexivity. Qed.

Lemma match_space_None c rest :
  match_space (c :: rest) = None <-> is_space c = false.
Proof.
  unfold match_space. cbn [spaces]. destruct (is_space c); split; done.
Qed.

Lemma match_space_Some c rest :
  is_space c = true -> match_space (c :: rest) = Some (S (spaces rest)).
Proof. intros H. unfold match_space. cbn [spaces]. by rewrite H. Qed.

Lemma spaces_drop s : spaces (drop (spaces s) s) = 0.
Proof.
  induction s as [|c rest IH]; [done|]. cbn [spaces].
  destruct (is_space c) eqn:Hc; cbn [drop spaces]; [done|by rewrite Hc].
Qed.

Lemma spaces_zero_match s : spaces s = 0 -> match_space s = None.
Proof. intros H. unfold match_space. by rewrite H. Qed.

Lemma spaces_replace_all s :
  spaces s = 0 -> spaces (replace_all match_space [" "%char] s) = 0.
Proof.
  destruct s as [|c rest]; [by rewrite replace_all_nil|]. intros H.
  rewrite (replace_all_skip _ _ _ _ (spaces_zero_match _ H)).
  cbn [spaces] in *. by destruct (is_space c).
Qed.

Lemma replace_all_collapsed s : collapsed (replace_all match_space [" "%char] s).
Proof.
  induction s as [|c rest n Hm IH|c rest Hm IH] using (replace_all_scan match_space).
  - by rewrite replace_all_nil.
  - rewrite (replace_all_match _ _ _ _ _ Hm). cbn [app collapsed].
    split; [|done]. intros _. split; [done|].
    apply spaces_replace_all.
    destruct (is_space c) eqn:Hc.
    + rewrite (match_space_Some _ _ Hc) in Hm. injection Hm as <-.
      cbn [pred]. apply spaces_drop.
    + apply (match_space_None c rest) in Hc. rewrite Hc in Hm. done.
  - rewrite (replace_all_skip _ _ _ _ Hm). cbn [collapsed]. split; [|done].
    apply match_space_None in Hm. rewrite Hm. done.
Qed.

Lemma collapsed_id s : collapsed s -> replace_all match_space [" "%char] s = s.
Proof.
  induction s as [|c rest IH]; [intros _; apply replace_all_nil|].
  cbn [collapsed]. intros [Hc Hrest]. destruct (is_space c) eqn:Hsp.
  - destruct (Hc eq_refl) as [-> Hz].
    rewrite (replace_all_match _ _ _ _ _ (match_space_Some _ rest Hsp)).
    rewrite Hz. cbn [pred drop app]. f_equal. by apply IH.
  - rewrite (replace_all_skip _ _ _ _ (proj2 (match_space_None _ _) Hsp)).
    f_equal. by apply IH.
Qed.

Lemma spaces_prefix p q : spaces (p ++ q) = 0 -> spaces p = 0.
Proof.
  destruct p as [|c p]; [done|]. cbn [app spaces]. by destruct (is_space c).
Qed.

Lemma collapsed_prefix p q : collapsed (p ++ q) -> collapsed p.
Proof.
  induction p as [|c p IH]; [done|]. cbn [app collapsed]. intros [Hc Hrest].
  split; [|by apply IH]. intros Hsp. destruct (Hc Hsp) as [-> Hz].
  split; [done|]. by eapply spaces_prefix.
Qed.

Lemma drop_spaces_suffix s : exists k, s = k ++ drop_spaces s.
Proof.
  induction s as [|c rest [k IH]]; [by exists []|]. cbn [drop_spaces].
  destruct (is_space c); [|by exists []].
  exists (c :: k). cbn. by rewrite <- IH.
Qed.

Lemma collapsed_suffix p q : collapsed (p ++ q) -> collapsed q.
Proof. induction p as [|c p IH]; [done|]. cbn. intros [_ H]. by apply IH. Qed.

Lemma no_tag_suffix p q : no_tag (p ++ q) -> no_tag q.
Proof. induction p as [|c p IH]; [done|]. cbn. intros [_ H]. by apply IH. Qed.

Lemma spaces_drop_spaces s : spaces (drop_spaces s) = 0.
Proof.
  induction s as [|c rest IH]; [done|]. cbn [drop_spaces].
  destruct (is_space c) eqn:Hc; [done|]. cbn [spaces]. by rewrite Hc.
Qed.

Lemma drop_spaces_id s : spaces s = 0 -> drop_spaces s = s.
Proof.
  destruct s as [|c rest]; [done|]. cbn [spaces drop_spaces].
  by destruct (is_space c).
Qed.

(** [trim s] is a part of [s]: [s = before ++ trim s ++ after]. *)
Lemma trim_part s : exists before after, s = before ++ trim s ++ after.
Proof.
  unfold trim. destruct (drop_spaces_suffix s) as [k Hk].
  destruct (drop_spaces_suffix (rev (drop_spaces s))) as [k' Hk'].
  exists k, (rev k'). rewrite Hk at 1. f_equal.
  rewrite <- (rev_involutive (drop_spaces s)) at 1. rewrite Hk' at 1.
  by rewrite rev_app_distr.
Qed.

Lemma trim_trim s : trim (trim s) = trim s.
Proof.
  unfold trim at 1.
  assert (Hhead : spaces (trim s) = 0).
  { unfold trim. destruct (drop_spaces_suffix (rev (drop_spaces s))) as [k Hk].
    apply (spaces_prefix _ (rev k)). rewrite <- rev_app_distr, <- Hk.
    rewrite rev_involutive. apply spaces_drop_spaces. }
  rewrite (drop_spaces_id _ Hhead). unfold trim. rewrite rev_involutive.
  by rewrite (drop_spaces_id _ (spaces_drop_spaces _)).
Qed.

Lemma trim_collapsed s : collapsed s -> collapsed (trim s).
Proof.
  destruct (trim_part s) as (b & a & H). rewrite H at 1. intros Hc.
  apply collapsed_suffix in Hc. by apply collapsed_prefix in Hc.
Qed.

Lemma trim_no_tag s : no_tag s -> no_tag (trim s).
Proof.
  destruct (trim_part s) as (b & a & H). rewrite H at 1. intros Hc.
  apply no_tag_suffix in Hc. by apply no_tag_prefix in Hc.
Qed.

Lemma strip_chain_idempotent s : strip_chain (strip_chain s) = strip_chain s.
Proof.
  unfold strip_chain at 1. unfold strip_chars at 1.
  set (out := strip_chain s).
  assert (Hout : exists s4,
             list_ascii_of_string out = trim s4 /\ no_tag s4 /\ collapsed s4).
  { unfold out, strip_chain, strip_chars. eexists. split.
    - apply list_ascii_of_string_of_list_ascii.
    - split; [|apply replace_all_collapsed].
      apply replace_all_no_tag; [apply match_space_gt|].
      apply no_tag_tags_within.
      apply replace_all_no_tag; [done|apply tags_within_match_tag]. }
  destruct Hout as (s4 & Heq & Htag & Hcol).
  assert (Htag' : no_tag (list_ascii_of_string out))
    by (rewrite Heq; by apply trim_no_tag).
  assert (Hcol' : collapsed (list_ascii_of_string out))
    by (rewrite Heq; by apply trim_collapsed).
  rewrite (replace_all_id _ [] (list_ascii_of_string out))
    by (by apply no_tag_no_block).
  rewrite (replace_all_id _ [] (list_ascii_of_string out))
    by (by apply no_tag_no_block).
  rewrite (replace_all_id _ _ _ Htag'), (collapsed_id _ Hcol').
  rewrite Heq, trim_trim, <- Heq. apply string_of_list_ascii_of_string.
Qed.


(** *** Blocks are removed whole *)

Lemma replace_all_app_skip m rep a b :
  (forall a1 c a2, a = a1 ++ c :: a2 -> m (c :: a2 ++ b) = None) ->
  replace_all m rep (a ++ b) = a ++ replace_all m rep b.
Proof.
  induction a as [|c a IH]; intros Hm; [done|]. cbn [app].
  rewrite replace_all_skip by (apply (Hm [] c a); done).
  f_equal. apply IH. intros a1 d a2 ->. by apply (Hm (c :: a1) d a2).
Qed.

Lemma match_block_other c opening closing t :
  c <> "<"%char -> match_block ("<"%char :: opening) closing (c :: t) = None.
Proof.
  intros Hc. unfold match_block. cbn [after_prefix].
  destruct (same_letter "<" c) eqn:E; [|done]. by apply same_letter_lt in E.
Qed.

Lemma after_prefix_self pat t : after_prefix pat (pat ++ t) = Some t.
Proof.
  induction pat as [|p pat IH]; [by destruct t|]. cbn.
  unfold same_letter. by rewrite Ascii.eqb_refl.
Qed.

Lemma index_of_app x pre t :
  ~ In x pre -> index_of x (pre ++ x :: t) = Some (length pre).
Proof.
  induction pre as [|c pre IH]; cbn; intros Hin.
  - by rewrite Ascii.eqb_refl.
  - destruct (Ascii.eqb_spec c x) as [->|_]; [tauto|]. rewrite IH; [done|tauto].
Qed.

Lemma index_of_literal_app closing pre t :
  ~ In "<"%char pre ->
  index_of_literal ("<"%char :: closing) (pre ++ "<"%char :: closing ++ t)
  = Some (length pre).
Proof.
  induction pre as [|c pre IH]; intros Hin.
  - cbn [app length index_of_literal].
    change ("<"%char :: closing ++ t) with (("<"%char :: closing) ++ t).
    by rewrite after_prefix_self.
  - cbn [app index_of_literal after_prefix length].
    destruct (same_letter "<" c) eqn:E.
    { apply same_letter_lt in E. subst c. exfalso. apply Hin. by left. }
    rewrite IH; [done|]. intros H. apply Hin. by right.
Qed.

Lemma drop_past {A} (pre : list A) x t : drop (S (length pre)) (pre ++ x :: t) = t.
Proof. induction pre as [|c pre IH]; [done|]. exact IH. Qed.

(** The block pattern matches a whole block: the opening literal, any
    attributes up to the first [>], a content without [<], and the closing
    literal. *)
Lemma match_block_whole opening closing attrs content t :
  ~ In ">"%char attrs -> ~ In "<"%char content ->
  match_block opening ("<"%char :: closing)
    (opening ++ attrs ++ ">"%char :: content ++ ("<"%char :: closing) ++ t)
  = Some (length opening + S (length attrs) + length content
          + length ("<"%char :: closing)).
Proof.
  intros Ha Hc. unfold match_block. rewrite after_prefix_self. cbn [mbind option_bind].
  rewrite (index_of_app _ _ _ Ha). cbn [mbind option_bind].
  rewrite drop_past.
  cbn [app]. rewrite (index_of_literal_app _ _ _ Hc). done.
Qed.

Lemma replace_all_block opening closing before attrs content after :
  ~ In "<"%char before -> ~ In ">"%char attrs -> ~ In "<"%char content ->
  replace_all (match_block ("<"%char :: opening) ("<"%char :: closing)) []
    (before ++ ("<"%char :: opening) ++ attrs ++ ">"%char
            :: content ++ ("<"%char :: closing) ++ after)
  = replace_all (match_block ("<"%char :: opening) ("<"%char :: closing)) []
      (before ++ after).
Proof.
  intros Hb Ha Hc.
  assert (Hskip : forall t a1 c a2,
             before = a1 ++ c :: a2 ->
             match_block ("<"%char :: opening) ("<"%char :: closing)
               (c :: a2 ++ t) = None).
  { intros t a1 c a2 ->. apply match_block_other. intros ->.
    apply Hb, in_or_app. right. by left. }
  rewrite (replace_all_app_skip _ _ before _ (Hskip _)).
  rewrite (replace_all_app_skip _ _ before after (Hskip _)).
  f_equal. cbn [app].
  erewrite replace_all_match.
  2:{ apply (match_block_whole ("<"%char :: opening) closing attrs content after Ha Hc). }
  cbn [app]. f_equal.
  replace (opening ++ attrs ++ ">"%char :: content ++ "<"%char :: closing ++ after)
    with ((opening ++ attrs ++ ">"%char :: content ++ "<"%char :: closing) ++ after).
  2:{ rewrite <- !app_assoc. cbn [app]. do 2 f_equal. rewrite <- app_assoc. done. }
  apply drop_app_length'. rewrite !length_app. cbn [length]. rewrite !length_app.
  cbn [length]. lia.
Qed.

Lemma replace_all_clean opening closing rep a b :
  ~ In "<"%char a ->
  replace_all (match_block ("<"%char :: opening) closing) rep (a ++ b)
  = a ++ replace_all (match_block ("<"%char :: opening) closing) rep b.
Proof.
  intros Ha. apply replace_all_app_skip. intros a1 c a2 ->.
  apply match_block_other. intros ->. apply Ha, in_or_app. right. by left.
Qed.

(** A block pattern passes over two tags that do not start with its
    opening literal and that enclose no [<]. *)
Lemma replace_all_pass_over opening closing p q after :
  ~ In "<"%char p -> ~ In "<"%char q ->
  (forall t, after_prefix opening (p ++ t) = None) ->
  (forall t, after_prefix opening (q ++ t) = None) ->
  replace_all (match_block ("<"%char :: opening) closing) []
    ("<"%char :: p ++ "<"%char :: q ++ after)
  = "<"%char :: p ++ "<"%char :: q
      ++ replace_all (match_block ("<"%char :: opening) closing) [] after.
Proof.
  intros Hp Hq Hop Hoq.
  rewrite replace_all_skip.
  2:{ unfold match_block. cbn [after_prefix].
      destruct (same_letter "<" "<"); [|done]. by rewrite Hop. }
  f_equal. rewrite (replace_all_clean _ _ _ p _ Hp). f_equal.
  rewrite replace_all_skip.
  2:{ unfold match_block. cbn [after_prefix].
      destruct (same_letter "<" "<"); [|done]. by rewrite Hoq. }
  f_equal. by rewrite (replace_all_clean _ _ _ q _ Hq).
Qed.

Lemma strip_chars_script before attrs content after :
  ~ In "<"%char before -> ~ In ">"%char attrs -> ~ In "<"%char content ->
  strip_chars (before ++ list_ascii_of_string "<script" ++ attrs ++ ">"%char
                 :: content ++ list_ascii_of_string "</script>" ++ after)
  = strip_chars (before ++ after).
Proof.
  intros Hb Ha Hc. unfold strip_chars.
  pose proof (replace_all_block (list_ascii_of_string "script")
                (list_ascii_of_string "/script>") before attrs content after
                Hb Ha Hc) as Hblock.
  cbn [list_ascii_of_string app] in Hblock |- *. by rewrite Hblock.
Qed.

Lemma strip_chars_style before attrs content after :
  ~ In "<"%char before -> ~ In "<"%char attrs -> ~ In ">"%char attrs ->
  ~ In "<"%char content ->
  strip_chars (before ++ list_ascii_of_string "<style" ++ attrs ++ ">"%char
                 :: content ++ list_ascii_of_string "</style>" ++ after)
  = strip_chars (before ++ after).
Proof.
  intros Hb Ha Ha' Hc. unfold strip_chars.
  set (script := match_block (list_ascii_of_string "<script")
                             (list_ascii_of_string "</script>")).
  assert (Hpass :
    replace_all script []
      (before ++ list_ascii_of_string "<style" ++ attrs ++ ">"%char
              :: content ++ list_ascii_of_string "</style>" ++ after)
    = before ++ list_ascii_of_string "<style" ++ attrs ++ ">"%char
        :: content ++ list_ascii_of_string "</style>"
        ++ replace_all script [] after).
  { unfold script. cbn [list_ascii_of_string].
    rewrite (replace_all_clean _ _ _ before _ Hb). f_equal.
    pose proof (replace_all_pass_over (list_ascii_of_string "script")
                  (list_ascii_of_string "</script>")
                  (list_ascii_of_string "style" ++ attrs ++ ">"%char :: content)
                  (list_ascii_of_string "/style>") after) as Hover.
    cbn [list_ascii_of_string app] in Hover |- *.
    rewrite <- !app_assoc in Hover. cbn [app] in Hover.
    apply Hover.
    - intros H. repeat (destruct H as [H|H]; [discriminate H|]).
      apply in_app_iff in H as [H|[H|H]]; [done|discriminate H|done].
    - cbn. intros H. repeat (destruct H as [H|H]; [discriminate H|]). done.
    - done.
    - done. }
  rewrite Hpass.
  replace (replace_all script [] (before ++ after))
    with (before ++ replace_all script [] after)
    by (unfold script; cbn [list_ascii_of_string];
        by rewrite (replace_all_clean _ _ _ before after Hb)).
  pose proof (replace_all_block (list_ascii_of_string "style")
                (list_ascii_of_string "/style>") before attrs content
                (replace_all script [] after) Hb Ha' Hc) as Hblock.
  cbn [list_ascii_of_string app] in Hblock |- *. by rewrite Hblock.
Qed.



(** ** Properties of the lookup *)

Section Lookup.
Context {platform : Platform} {config : Config}.

(** The lookup sends the compact query, sends the verbose query when the
    reply is a non-success 400 or 403, and maps the reply it ends with. *)
Lemma run_lookupOperaByInventario net numeroInventario :
  run net 0 (lookupOperaByInventario numeroInventario)
  = (match last_reply net numeroInventario with
     | Responded ok status text => lookup_result (response ok status text)
     | Rejected e => Throw e
     end,
     let first := request_for (buildOperaUrlWithFilterParams numeroInventario) in
     if rejected_filter (net 0 first)
     then [first;
           request_for (buildOperaUrlWithFilterParamsVerboseFallback numeroInventario)]
     else [first]).
Proof.
  unfold lookupOperaByInventario, last_reply, fetchJson. cbn.
  destruct (net 0 _) as [ok status text|e] eqn:H0; cbn; [|done].
  destruct (negb ok && ((status =? 400)%N || (status =? 403)%N)) eqn:Hretry; cbn; [|done].
  destruct (net 1 _) as [ok' status' text'|e']; done.
Qed.

Lemma lookup_result_failed res :
  res_ok res = false ->
  lookup_result res
  = Normal (RequestFailed
              ("Drupal request failed (" +:+ decimal (res_status res) +:+ ")")
              (if truthy (optional (res_json res) "errors")
               then optional (res_json res) "errors"
               else if String.eqb (res_text res) ""
                    then VNull
                    else VStr (substring 0 500 (res_text res)))).
Proof.
  intros Hok. unfold lookup_result. rewrite Hok. cbn. do 2 f_equal.
  unfold or_. destruct (truthy (optional (res_json res) "errors")) eqn:He;
    rewrite ?He; [done|].
  cbn [truthy]. destruct (res_text res) as [|c s]; [done|].
  destruct (String.eqb_spec (substring 0 500 (String c s)) "") as [E|E]; cbn.
  - cbn in E. done.
  - destruct (String.eqb_spec (String c s) ""); done.
Qed.

Lemma lookup_result_not_found res :
  res_ok res = true ->
  truthy (first_item (res_json res)) = false ->
  lookup_result res = Normal NotFound.
Proof. intros Hok Hitem. unfold lookup_result. by rewrite Hok, Hitem. Qed.

Lemma stripHtml_string s :
  stripHtml (VStr s) = Normal (if String.eqb s "" then "" else strip_chain s).
Proof. unfold stripHtml. cbn. by destruct (String.eqb s ""). Qed.

(** On a successful response that carries an item in a well-formed
    document, the mapping throws nothing and returns a Found item. *)
Lemma lookup_result_found res :
  res_ok res = true ->
  truthy (first_item (res_json res)) = true ->
  well_formed_document (res_json res) ->
  exists item, lookup_result res = Normal (Found item).
Proof.
  intros Hok Hitem [Hrel [s Hs]]. unfold lookup_result. rewrite Hok, Hitem.
  cbn [negb].
  repeat (match goal with
          | |- context [resolveIncludedNames ?p (relationship ?i ?f)] =>
              let names := fresh "names" in
              let E := fresh "E" in
              destruct (resolveIncludedNames_returns p (relationship i f))
                as [names E]; [apply Hrel; cbn; tauto|];
              rewrite E; cbn [mbind completion_bind]
          end).
  rewrite Hs, stripHtml_string. cbn. eauto.
Qed.





(** C9. In a Found item the four measurements and the two date bounds
    are the attribute itself unless it is null or undefined, so the
    number 0 is kept; the five descriptive fields are the attribute when
    it is truthy and null otherwise, so the empty string and the number 0
    become null. *)
Theorem lookup_result_zero_and_empty res item :
  lookup_result res = Normal (Found item) ->
  Forall (fun kf : string * (ResolvedItem -> value) =>
            let v := get (attributes_of res) (fst kf) in
            snd kf item = (if nullish v then VNull else v)
            /\ (v = VNum 0 -> snd kf item = VNum 0))
         nullish_fields
  /\ Forall (fun kf : string * (ResolvedItem -> value) =>
               let v := get (attributes_of res) (fst kf) in
               snd kf item = (if truthy v then v else VNull)
               /\ (v = VStr "" \/ v = VNum 0 -> snd kf item = VNull))
            falsy_fields.
Proof.
  unfold lookup_result, attributes_of.
  destruct (res_ok res); cbn [negb]; [|discriminate].
  destruct (truthy (first_item (res_json res))); cbn [negb]; [|discriminate].
  repeat (match goal with
          | |- context [resolveIncludedNames ?p ?r] =>
              destruct (resolveIncludedNames p r); cbn; [|discriminate]
          end).
  destruct (stripHtml _); cbn; [|discriminate].
  intros [= <-]. unfold nullish_fields, falsy_fields.
  split; repeat constructor; cbn [fst snd]; unfold coalesce, or_; try done.
  all: try (intros ->; done).
  all: intros [-> | ->]; done.
Qed.
End Lookup.

(** *** The lookup on the examples *)

Lemma well_formed_vase_document :
  well_formed_document (@parse_body example_platform vase_text).
Proof.
  split.
  - intros field _ Hinc. discriminate Hinc.
  - by exists "".
Qed.

(** The hypothesis on the document is needed: when the side-loaded set is
    not a list, resolving a relationship calls [find] on a value that has no
    such method. *)
Example lookup_result_malformed_document :
  @lookup_result example_platform malformed_response
  = Throw (TypeError "find is not a function").
Proof. reflexivity. Qed.




(** The two queries of the example, as sent. *)
Example compact_query :
  @buildOperaUrlWithFilterParams example_config "10220"
  = "https://example.org/jsonapi/node/opera?page%5Blimit%5D=1&filter%5Bfield_inventario%5D=10220&include=field_autore%2Cfield_tipologia%2Cfield_luogo%2Cfield_tecnica%2Cfield_materiale%2Cfield_schedatore".
Proof. reflexivity. Qed.

Example verbose_query :
  @buildOperaUrlWithFilterParamsVerboseFallback example_config "10220"
  = "https://example.org/jsonapi/node/opera?page%5Blimit%5D=1&filter%5Binventario%5D%5Bcondition%5D%5Bpath%5D=field_inventario&filter%5Binventario%5D%5Bcondition%5D%5Boperator%5D=%3D&filter%5Binventario%5D%5Bcondition%5D%5Bvalue%5D=10220&include=field_autore%2Cfield_tipologia%2Cfield_luogo%2Cfield_tecnica%2Cfield_materiale%2Cfield_schedatore".
Proof. reflexivity. Qed.




Lemma lookup_result_zero_and_empty_witness :
  @lookup_result example_platform zero_response = Normal (Found zero_item)
  /\ altezza (dimensioni zero_item) = VNum 0
  /\ data_da zero_item = VNum 0
  /\ title zero_item = VNull
  /\ periodo zero_item = VNull
  /\ Forall (fun kf : string * (ResolvedItem -> value) =>
               let v := get (attributes_of zero_response) (fst kf) in
               snd kf zero_item = (if nullish v then VNull else v)
               /\ (v = VNum 0 -> snd kf zero_item = VNum 0))
            nullish_fields
  /\ Forall (fun kf : string * (ResolvedItem -> value) =>
               let v := get (attributes_of zero_response) (fst kf) in
               snd kf zero_item = (if truthy v then v else VNull)
               /\ (v = VStr "" \/ v = VNum 0 -> snd kf zero_item = VNull))
            falsy_fields.
Proof.
  split; [reflexivity|]. do 4 (split; [reflexivity|]).
  exact (@lookup_result_zero_and_empty example_platform zero_response
           zero_item eq_refl).
Defined.

(** ** Properties of the dispatcher *)

Section Dispatcher.
Context {sdk : SDK}.

Lemma find_session_absent st header :
  present header = false -> find_session st header = None.
Proof. destruct header as [id|]; cbn; [|done]. by intros ->. Qed.

Lemma find_session_unknown st id :
  sessions st !! id = None -> find_session st (Some id) = None.
Proof. intros Hid. cbn. rewrite Hid. by destruct (negb _). Qed.

(** C5. A POST without a session id whose body is not an initialization
    request is answered with status 400 and the JSON-RPC error of code
    -32000, No valid session ID provided, and the state is as before: no
    transport or server is built and the registry is unchanged. A POST
    with an unknown session id and such a body gets the same answer. A
    GET with an unknown session id is answered with status 400, Invalid or
    missing session ID, and the state is as before. *)
Theorem dispatcher_rejects st req :
  (present (mcp_session_id req) = false ->
   isInitializeRequest (body req) = false ->
   post_mcp st req
   = (st, JsonRpcError 400 (-32000)
            "Bad Request: No valid session ID provided"))
  /\ (forall id,
         mcp_session_id req = Some id ->
         sessions st !! id = None ->
         isInitializeRequest (body req) = false ->
         post_mcp st req
         = (st, JsonRpcError 400 (-32000)
                  "Bad Request: No valid session ID provided"))
  /\ (forall id,
         mcp_session_id req = Some id ->
         sessions st !! id = None ->
         get_mcp st req = (st, PlainText 400 "Invalid or missing session ID")).
Proof.
  split; [|split].
  - intros Hid Hinit. unfold post_mcp.
    rewrite (find_session_absent _ _ Hid), Hinit, andb_false_r. done.
  - intros id Hid Hnone Hinit. unfold post_mcp.
    rewrite Hid, (find_session_unknown _ _ Hnone), Hinit, andb_false_r. done.
  - intros id Hid Hnone. unfold get_mcp.
    by rewrite Hid, (find_session_unknown _ _ Hnone).
Qed.

(** C8 (as amended). A POST that carries a session id that is not empty
    and not registered is answered with status 400 and the error of code
    -32000, whatever its body, a valid initialization request included,
    and the state is as before. The POST handler builds a transport and a
    server only when the header is absent or empty. *)
Theorem unknown_session_never_initializes st req :
  (forall id,
      mcp_session_id req = Some id ->
      id <> "" ->
      sessions st !! id = None ->
      post_mcp st req
      = (st, JsonRpcError 400 (-32000)
               "Bad Request: No valid session ID provided"))
  /\ (built (fst (post_mcp st req)) <> built st ->
      (mcp_session_id req = None \/ mcp_session_id req = Some "")
      /\ isInitializeRequest (body req) = true).
Proof.
  split.
  - intros id Hid Hne Hnone. unfold post_mcp.
    rewrite Hid, (find_session_unknown _ _ Hnone). cbn [present].
    destruct (String.eqb_spec id ""); done.
  - unfold post_mcp.
    destruct (find_session st (mcp_session_id req)) as [session|]; [done|].
    destruct (present (mcp_session_id req)) eqn:Hp; cbn [negb andb]; [done|].
    destruct (isInitializeRequest (body req)); [|done]. intros _. split; [|done].
    destruct (mcp_session_id req) as [id|]; [|by left]. right.
    cbn in Hp. destruct (String.eqb_spec id ""); by subst.
Qed.
End Dispatcher.

Lemma dispatcher_rejects_witness :
  @post_mcp example_sdk no_sessions
    {| mcp_session_id := None; body := tool_call_message |}
  = (no_sessions,
     JsonRpcError 400 (-32000) "Bad Request: No valid session ID provided")
  /\ @post_mcp example_sdk no_sessions
       {| mcp_session_id := Some "4f0c"; body := tool_call_message |}
     = (no_sessions,
        JsonRpcError 400 (-32000) "Bad Request: No valid session ID provided")
  /\ @get_mcp example_sdk no_sessions
       {| mcp_session_id := Some "4f0c"; body := VUndefined |}
     = (no_sessions, PlainText 400 "Invalid or missing session ID").
Proof.
  split; [|split].
  - exact (proj1 (@dispatcher_rejects example_sdk no_sessions
                    {| mcp_session_id := None; body := tool_call_message |})
             eq_refl eq_refl).
  - exact (proj1 (proj2 (@dispatcher_rejects example_sdk no_sessions
                           {| mcp_session_id := Some "4f0c";
                              body := tool_call_message |}))
             "4f0c" eq_refl eq_refl eq_refl).
  - exact (proj2 (proj2 (@dispatcher_rejects example_sdk no_sessions
                           {| mcp_session_id := Some "4f0c";
                              body := VUndefined |}))
             "4f0c" eq_refl eq_refl).
Defined.

Lemma unknown_session_never_initializes_witness :
  @post_mcp example_sdk no_sessions
    {| mcp_session_id := Some "4f0c"; body := initialize_message |}
  = (no_sessions,
     JsonRpcError 400 (-32000) "Bad Request: No valid session ID provided")
  /\ @isInitializeRequest example_sdk initialize_message = true.
Proof.
  split.
  - refine (proj1 (@unknown_session_never_initializes example_sdk no_sessions
                     {| mcp_session_id := Some "4f0c";
                        body := initialize_message |})
              "4f0c" eq_refl _ eq_refl).
    discriminate.
  - refine (proj2 (proj2 (@unknown_session_never_initializes example_sdk no_sessions
                     {| mcp_session_id := None;
                        body := initialize_message |}) _)).
    cbn. discriminate.
Defined.

(** C8 (as stated) fails: a POST whose session-id header is there and
    empty, hence not registered, with an initialization request as body, is
    not rejected; a transport and a server are built for it and the session
    is registered. *)
Lemma empty_session_id_initializes :
  sessions no_sessions !! "" = None
  /\ @isInitializeRequest example_sdk initialize_message = true
  /\ snd (@post_mcp example_sdk no_sessions
            {| mcp_session_id := Some ""; body := initialize_message |})
     = ByTransport
  /\ built (fst (@post_mcp example_sdk no_sessions
                   {| mcp_session_id := Some ""; body := initialize_message |}))
     = 1
  /\ sessions (fst (@post_mcp example_sdk no_sessions
                      {| mcp_session_id := Some ""; body := initialize_message |}))
     !! "session-0"
     = Some {| transport := 0; server := 0 |}.
Proof. repeat split; vm_compute; reflexivity. Qed.

(** ** The registry through the life of a session *)

(** X1. Once a transport has confirmed its initialization under an id, the
    registry maps that id to its session; once the transport has closed
    with that id, which is not empty, the registry holds no entry for it;
    the entries of other ids are as before throughout. *)
Theorem registry_set_then_delete (session : Session)
    (registry : gmap string Session) (id : string) :
  id <> "" ->
  run_callback session registry (SessionInitialized id) !! id = Some session
  /\ run_callback session
       (run_callback session registry (SessionInitialized id))
       (Closed (Some id)) !! id = None
  /\ forall other,
      other <> id ->
      run_callback session
        (run_callback session registry (SessionInitialized id))
        (Closed (Some id)) !! other = registry !! other.
Proof.
  intros Hid. cbn [run_callback].
  destruct (String.eqb_spec id "") as [|_]; [done|]. cbn [negb].
  split; [apply lookup_insert_eq|]. split; [apply lookup_delete_eq|].
  intros other Hother. rewrite lookup_delete_ne by done.
  by rewrite lookup_insert_ne.
Qed.

Lemma registry_set_then_delete_witness :
  run_callback {| transport := 0; server := 0 |} ∅ (SessionInitialized "session-0")
    !! "session-0"
  = Some {| transport := 0; server := 0 |}
  /\ run_callback {| transport := 0; server := 0 |}
       (run_callback {| transport := 0; server := 0 |} ∅
          (SessionInitialized "session-0"))
       (Closed (Some "session-0")) !! "session-0" = None.
Proof.
  assert (Hid : "session-0" <> "") by discriminate.
  exact (conj
           (proj1 (registry_set_then_delete {| transport := 0; server := 0 |} ∅
                     "session-0" Hid))
           (proj1 (proj2 (registry_set_then_delete
                            {| transport := 0; server := 0 |} ∅
                            "session-0" Hid)))).
Defined.

Section Initialization.
Context {sdk : SDK}.

(** X2. A POST without a session id whose body is an initialization request
    builds one transport and server pair and hands the message to the
    transport; when the transport confirms the initialization under an id
    and runs no other callback, the registry afterwards maps that id to the
    new pair and is otherwise as before. *)
Theorem post_initialize_registers st req id :
  present (mcp_session_id req) = false ->
  isInitializeRequest (body req) = true ->
  callbacks (handleRequest (built st) req) = [SessionInitialized id] ->
  built (fst (post_mcp st req)) = S (built st)
  /\ sessions (fst (post_mcp st req))
     = <[id := {| transport := built st; server := built st |}]> (sessions st).
Proof.
  intros Hid Hinit Hcb. unfold post_mcp, hand_over.
  rewrite (find_session_absent _ _ Hid), Hid, Hinit. cbn. by rewrite Hcb.
Qed.
End Initialization.

Lemma post_initialize_registers_witness :
  built (fst (@post_mcp example_sdk no_sessions
                {| mcp_session_id := None; body := initialize_message |}))
  = 1
  /\ sessions (fst (@post_mcp example_sdk no_sessions
                      {| mcp_session_id := None; body := initialize_message |}))
     = <["session-0" := {| transport := 0; server := 0 |}]> ∅.
Proof.
  exact (@post_initialize_registers example_sdk no_sessions
           {| mcp_session_id := None; body := initialize_message |}
           "session-0" eq_refl eq_refl eq_refl).
Defined.

(** ** Properties of the query encoding *)

Lemma form_decode_char c rest :
  form_decode (List.concat (List.map form_byte (utf8 c)) ++ rest)
  = c :: form_decode rest.
Proof. destruct c as [[] [] [] [] [] [] [] []]; reflexivity. Qed.

Lemma form_decode_encode s :
  form_decode (list_ascii_of_string (form_encode s)) = list_ascii_of_string s.
Proof.
  unfold form_encode. rewrite list_ascii_of_string_of_list_ascii.
  induction (list_ascii_of_string s) as [|c l IH]; [done|].
  cbn [List.map List.concat]. by rewrite form_decode_char, IH.
Qed.

Lemma form_safe_char c :
  Forall (fun x => form_safe x = true) (List.concat (List.map form_byte (utf8 c))).
Proof. destruct c as [[] [] [] [] [] [] [] []]; repeat constructor. Qed.

(** Two different values never have the same encoding. *)
Lemma form_encode_injective (a b : string) :
  a <> b -> form_encode a <> form_encode b.
Proof.
  intros Hne Heq. apply Hne.
  rewrite <- (string_of_list_ascii_of_string a), <- (string_of_list_ascii_of_string b).
  by rewrite <- (form_decode_encode a), <- (form_decode_encode b), Heq.
Qed.

Example form_encode_space_and_plus :
  form_encode "10 220" = "10+220" /\ form_encode "10+220" = "10%2B220".
Proof. split; reflexivity. Qed.

(** X4. An encoded query value is made of letters, digits and the
    characters [* - . _ + %] only: whatever the inventory number holds, its
    encoding has no [&], [=], [#] or [?], and cannot end its parameter or
    start another. *)
Theorem form_encode_safe (s : string) :
  Forall (fun c => form_safe c = true) (list_ascii_of_string (form_encode s))
  /\ ~ In "&"%char (list_ascii_of_string (form_encode s))
  /\ ~ In "="%char (list_ascii_of_string (form_encode s))
  /\ ~ In "#"%char (list_ascii_of_string (form_encode s))
  /\ ~ In "?"%char (list_ascii_of_string (form_encode s)).
Proof.
  assert (Hsafe : Forall (fun c => form_safe c = true)
                    (list_ascii_of_string (form_encode s))).
  { unfold form_encode. rewrite list_ascii_of_string_of_list_ascii.
    induction (list_ascii_of_string s) as [|c l IH]; [constructor|].
    cbn [List.map List.concat]. apply Forall_app. split; [apply form_safe_char|done]. }
  split; [exact Hsafe|].
  rewrite List.Forall_forall in Hsafe.
  repeat split; intros Hin; apply Hsafe in Hin; discriminate Hin.
Qed.

(** ** Properties of the query parameters *)

Lemma named_removed name k l :
  named k (List.filter (fun p : string * string => negb (String.eqb (fst p) name)) l)
  = if String.eqb k name then [] else named k l.
Proof.
  unfold named. induction l as [|[k' v] l IH]; cbn [List.filter fst].
  - by destruct (String.eqb k name).
  - destruct (String.eqb_spec k' name) as [->|Hk']; cbn [negb List.filter fst].
    + rewrite IH. destruct (String.eqb_spec k name) as [->|Hk]; [done|].
      destruct (String.eqb_spec name k); [congruence|done].
    + rewrite IH. destruct (String.eqb_spec k name) as [->|Hk].
      * destruct (String.eqb_spec k' name); [congruence|done].
      * done.
Qed.

Lemma named_set_pair name value k l :
  named k (set_pair name value l)
  = if String.eqb k name then [(name, value)] else named k l.
Proof.
  pose proof (named_removed name k) as Hrem. unfold named in *.
  induction l as [|[k' v] l IH]; cbn [set_pair].
  - cbn. rewrite String.eqb_sym. by destruct (String.eqb k name).
  - destruct (String.eqb_spec k' name) as [->|Hk']; cbn [List.filter fst].
    + rewrite Hrem, (String.eqb_sym name k).
      by destruct (String.eqb_spec k name) as [->|Hk].
    + rewrite IH. destruct (String.eqb_spec k name) as [->|Hk]; [|done].
      destruct (String.eqb_spec k' name); [congruence|done].
Qed.

Section Queries.
Context {config : Config}.

(** X5. In the compact query and in the verbose query each parameter the
    builder sets occurs once, with the value set, whatever the query of the
    configured endpoint held under that name; the parameters of the endpoint
    under other names are kept, in their order. *)
Theorem query_parameters (numeroInventario : string) :
  (buildOperaUrlWithFilterParams numeroInventario
   = toString (compact_url numeroInventario)
   /\ named "page[limit]" (searchParams (compact_url numeroInventario))
      = [("page[limit]", "1")]
   /\ named "filter[field_inventario]" (searchParams (compact_url numeroInventario))
      = [("filter[field_inventario]", numeroInventario)]
   /\ named "include" (searchParams (compact_url numeroInventario))
      = [("include", join "," include_fields)]
   /\ forall k,
       k <> "page[limit]" -> k <> "filter[field_inventario]" -> k <> "include" ->
       named k (searchParams (compact_url numeroInventario))
       = named k (searchParams DRUPAL_JSONAPI_ENDPOINT))
  /\ (buildOperaUrlWithFilterParamsVerboseFallback numeroInventario
      = toString (verbose_url numeroInventario)
      /\ named "page[limit]" (searchParams (verbose_url numeroInventario))
         = [("page[limit]", "1")]
      /\ named "filter[inventario][condition][path]"
           (searchParams (verbose_url numeroInventario))
         = [("filter[inventario][condition][path]", "field_inventario")]
      /\ named "filter[inventario][condition][operator]"
           (searchParams (verbose_url numeroInventario))
         = [("filter[inventario][condition][operator]", "=")]
      /\ named "filter[inventario][condition][value]"
           (searchParams (verbose_url numeroInventario))
         = [("filter[inventario][condition][value]", numeroInventario)]
      /\ named "include" (searchParams (verbose_url numeroInventario))
         = [("include", join "," include_fields)]
      /\ forall k,
          k <> "page[limit]" ->
          k <> "filter[inventario][condition][path]" ->
          k <> "filter[inventario][condition][operator]" ->
          k <> "filter[inventario][condition][value]" ->
          k <> "include" ->
          named k (searchParams (verbose_url numeroInventario))
          = named k (searchParams DRUPAL_JSONAPI_ENDPOINT)).
Proof.
  unfold compact_url, verbose_url, set. cbn [searchParams].
  repeat split; try reflexivity.
  all: rewrite ?named_set_pair; try reflexivity.
  - intros k H1 H2 H3. rewrite !named_set_pair.
    destruct (String.eqb_spec k "include"); [done|].
    destruct (String.eqb_spec k "filter[field_inventario]"); [done|].
    destruct (String.eqb_spec k "page[limit]"); done.
  - intros k H1 H2 H3 H4 H5. rewrite !named_set_pair.
    destruct (String.eqb_spec k "include"); [done|].
    destruct (String.eqb_spec k "filter[inventario][condition][value]"); [done|].
    destruct (String.eqb_spec k "filter[inventario][condition][operator]"); [done|].
    destruct (String.eqb_spec k "filter[inventario][condition][path]"); [done|].
    destruct (String.eqb_spec k "page[limit]"); done.
Qed.
End Queries.

Lemma query_parameters_witness :
  named "sort" (searchParams (@compact_url config_with_query "10220"))
  = [("sort", "title")]
  /\ named "sort" (searchParams (@verbose_url config_with_query "10220"))
     = [("sort", "title")]
  /\ named "include" (searchParams (@compact_url config_with_query "10220"))
     = [("include", join "," include_fields)].
Proof.
  split; [|split].
  - refine (proj2 (proj2 (proj2 (proj2 (proj1
              (@query_parameters config_with_query "10220"))))) "sort" _ _ _);
      discriminate.
  - refine (proj2 (proj2 (proj2 (proj2 (proj2 (proj2 (proj2
              (@query_parameters config_with_query "10220"))))))) "sort" _ _ _ _ _);
      discriminate.
  - exact (proj1 (proj2 (proj2 (proj2 (proj1
             (@query_parameters config_with_query "10220")))))).
Defined.

(** ** More properties of the lookup *)

Lemma length_substring_le n s : String.length (substring 0 n s) <= n.
Proof.
  revert s. induction n as [|n IH]; intros [|c s]; cbn; try lia.
  specialize (IH s). lia.
Qed.

Lemma substring_all n s : String.length s <= n -> substring 0 n s = s.
Proof.
  revert s. induction n as [|n IH]; intros [|c s]; cbn; try done; try lia.
  intros Hlen. f_equal. apply IH. lia.
Qed.

Section LookupMore.
Context {platform : Platform} {config : Config}.




Lemma resolveIncludedNames_data d d' others rel :
  resolveIncludedNames (VObj (("data", d) :: others)) rel
  = resolveIncludedNames (VObj (("data", d') :: others)) rel.
Proof. reflexivity. Qed.

(** X9. A document whose data is a list is mapped as the document with the
    first element of the list as its data: the other elements are not read.
    (The element is not itself a list.) *)
Theorem lookup_result_first_of_list ok status text x rest others :
  isArray x = false ->
  lookup_result {| res_ok := ok; res_status := status;
                   res_json := VObj (("data", VArr (x :: rest)) :: others);
                   res_text := text |}
  = lookup_result {| res_ok := ok; res_status := status;
                     res_json := VObj (("data", x) :: others);
                     res_text := text |}.
Proof.
  intros Hx. unfold lookup_result. cbn [res_ok res_json res_status res_text].
  destruct ok; cbn [negb]; [|reflexivity].
  assert (Hitem : first_item (VObj (("data", VArr (x :: rest)) :: others))
                  = first_item (VObj (("data", x) :: others))).
  { unfold first_item. cbn. by destruct x. }
  rewrite Hitem.
  rewrite !(resolveIncludedNames_data (VArr (x :: rest)) x). reflexivity.
Qed.

(** X10. In a Found item the markup of the description is the [processed]
    form of the attribute when that is truthy, else its [value] when that is
    truthy, else the empty string; and the text of the description is that
    markup stripped. *)
Theorem lookup_result_description res item :
  lookup_result res = Normal (Found item) ->
  let d := get (attributes_of res) "field_descrizione" in
  descrizione_html (descrizione item)
  = (if truthy (optional d "processed") then optional d "processed"
     else if truthy (optional d "value") then optional d "value"
     else VStr "")
  /\ stripHtml (descrizione_html (descrizione item))
     = Normal (descrizione_text (descrizione item)).
Proof.
  unfold lookup_result, attributes_of.
  destruct (res_ok res); cbn [negb]; [|discriminate].
  destruct (truthy (first_item (res_json res))); cbn [negb]; [|discriminate].
  repeat (match goal with
          | |- context [resolveIncludedNames ?p ?r] =>
              destruct (resolveIncludedNames p r); cbn; [|discriminate]
          end).
  destruct (stripHtml _) eqn:Hstrip; cbn; [|discriminate].
  intros [= <-]. cbn [descrizione descrizione_html descrizione_text].
  split; [|exact Hstrip]. unfold or_.
  set (attrs := if truthy (get (first_item (res_json res)) "attributes")
            then get (first_item (res_json res)) "attributes" else VObj []).
  destruct (truthy (optional (get attrs "field_descrizione") "processed")) eqn:Hp;
    rewrite ?Hp; [done|].
  destruct (truthy (optional (get attrs "field_descrizione") "value")) eqn:Hv;
    rewrite ?Hv; done.
Qed.
End LookupMore.

(** *** These properties on the examples *)




Lemma lookup_result_first_of_list_witness :
  @lookup_result example_platform
    (described_response (VArr [described_resource; VObj [("id", VStr "5")]]))
  = @lookup_result example_platform (described_response described_resource).
Proof.
  exact (@lookup_result_first_of_list example_platform true 200%N "{}"
           described_resource [VObj [("id", VStr "5")]] [] eq_refl).
Defined.

Lemma lookup_result_description_witness :
  match @lookup_result example_platform (described_response described_resource) with
  | Normal (Found item) =>
      descrizione_html (descrizione item) = VStr "<p>Un <b>vaso</b>.</p>"
      /\ @stripHtml example_platform (descrizione_html (descrizione item))
         = Normal (descrizione_text (descrizione item))
      /\ descrizione_text (descrizione item) = "Un vaso ."
  | _ => False
  end.
Proof.
  let r := eval vm_compute in
             (@lookup_result example_platform (described_response described_resource)) in
  match r with
  | Normal (Found ?item) =>
      pose proof (@lookup_result_description example_platform
                    (described_response described_resource) item eq_refl) as H
  end.
  cbn zeta in H. destruct H as [Hhtml Htext].
  exact (conj Hhtml (conj Htext eq_refl)).
Defined.

(** ** More properties of the markup stripper *)

Lemma strip_chars_invariants s :
  no_tag (strip_chars s) /\ collapsed (strip_chars s)
  /\ spaces (strip_chars s) = 0 /\ spaces (rev (strip_chars s)) = 0.
Proof.
  unfold strip_chars.
  set (s2 := replace_all _ [] (replace_all _ [] s)).
  assert (Htag : no_tag (replace_all match_space [" "%char]
                           (replace_all match_tag [" "%char] s2))).
  { apply replace_all_no_tag; [apply match_space_gt|].
    apply no_tag_tags_within.
    apply replace_all_no_tag; [done|apply tags_within_match_tag]. }
  split; [by apply trim_no_tag|].
  split; [apply trim_collapsed, replace_all_collapsed|].
  split.
  - unfold trim.
    destruct (drop_spaces_suffix
                (rev (drop_spaces (replace_all match_space [" "%char]
                        (replace_all match_tag [" "%char] s2))))) as [k Hk].
    apply (spaces_prefix _ (rev k)). rewrite <- rev_app_distr, <- Hk.
    rewrite rev_involutive. apply spaces_drop_spaces.
  - unfold trim. rewrite rev_involutive. apply spaces_drop_spaces.
Qed.

Lemma no_tag_explicit out pre mid post :
  no_tag out ->
  out = pre ++ "<"%char :: mid ++ ">"%char :: post ->
  mid <> [] -> In ">"%char mid.
Proof.
  intros Htag -> Hmid. apply no_tag_suffix in Htag. destruct Htag as [Hm _].
  apply match_tag_None in Hm as [H|[H|H]]; [done|..].
  - apply index_of_zero in H as [t Ht]. destruct mid as [|c mid]; [done|].
    injection Ht as -> _. by left.
  - apply index_of_None in H. exfalso. apply H, in_or_app. right. by left.
Qed.

Lemma collapsed_explicit out pre c post :
  collapsed out -> out = pre ++ c :: post -> is_space c = true ->
  c = " "%char /\ forall d rest, post = d :: rest -> is_space d = false.
Proof.
  intros Hcol -> Hc. apply collapsed_suffix in Hcol. destruct Hcol as [H _].
  destruct (H Hc) as [-> Hz]. split; [done|]. intros d rest ->.
  cbn [spaces] in Hz. by destruct (is_space d).
Qed.

(** X11. What [stripHtml] returns for a string holds no tag: nowhere in it
    does a [<] come before a [>] with one or more characters other than [>]
    in between. Its only white space is single spaces, each followed by a
    character that is not white space, and it neither starts nor ends with
    white space. *)
Theorem stripHtml_output_clean `{Platform} (s t : string) :
  stripHtml (VStr s) = Normal t ->
  (forall pre mid post,
      list_ascii_of_string t = pre ++ "<"%char :: mid ++ ">"%char :: post ->
      mid <> [] -> In ">"%char mid)
  /\ (forall pre c post,
         list_ascii_of_string t = pre ++ c :: post ->
         is_space c = true ->
         c = " "%char /\ pre <> [] /\ exists d rest,
             post = d :: rest /\ is_space d = false).
Proof.
  rewrite stripHtml_string. intros [= <-].
  assert (Hinv : no_tag (list_ascii_of_string (if String.eqb s "" then "" else strip_chain s))
                 /\ collapsed (list_ascii_of_string (if String.eqb s "" then "" else strip_chain s))
                 /\ spaces (list_ascii_of_string (if String.eqb s "" then "" else strip_chain s)) = 0
                 /\ spaces (rev (list_ascii_of_string (if String.eqb s "" then "" else strip_chain s))) = 0).
  { destruct (String.eqb s ""); [done|]. unfold strip_chain.
    rewrite list_ascii_of_string_of_list_ascii. apply strip_chars_invariants. }
  destruct Hinv as (Htag & Hcol & Hhead & Hlast). split.
  - intros pre mid post Heq. by apply (no_tag_explicit _ _ _ _ Htag Heq).
  - intros pre c post Heq Hc.
    destruct (collapsed_explicit _ _ _ _ Hcol Heq Hc) as [-> Hnext].
    split; [done|]. rewrite Heq in Hhead, Hlast. split.
    + intros ->. cbn [app spaces] in Hhead. by rewrite Hc in Hhead.
    + destruct post as [|d rest].
      * rewrite rev_app_distr in Hlast. cbn [rev app spaces] in Hlast.
        by rewrite Hc in Hlast.
      * exists d, rest. split; [done|]. by apply (Hnext d rest).
Qed.

Lemma replace_all_length m rep s :
  length rep <= 1 -> length (replace_all m rep s) <= length s.
Proof.
  intros Hrep.
  induction s as [|c rest n Hm IH|c rest Hm IH] using (replace_all_scan m).
  - by rewrite replace_all_nil.
  - rewrite (replace_all_match _ _ _ _ _ Hm), length_app. cbn [length].
    rewrite length_drop in IH. lia.
  - rewrite (replace_all_skip _ _ _ _ Hm). cbn [length]. lia.
Qed.

Lemma trim_length s : length (trim s) <= length s.
Proof.
  destruct (trim_part s) as (b & a & H). rewrite H at 2.
  rewrite !length_app. lia.
Qed.

Lemma length_list_ascii s : length (list_ascii_of_string s) = String.length s.
Proof. induction s as [|c s IH]; cbn; [done|by rewrite IH]. Qed.

(** X12. Stripping never makes a text longer. *)
Theorem strip_chain_length (s : string) :
  String.length (strip_chain s) <= String.length s.
Proof.
  rewrite <- !length_list_ascii. unfold strip_chain.
  rewrite list_ascii_of_string_of_list_ascii. unfold strip_chars.
  etransitivity; [apply trim_length|].
  do 4 (etransitivity; [apply replace_all_length; cbn; lia|]). done.
Qed.

Lemma no_lt_no_match m s :
  (forall c t, c <> "<"%char -> m (c :: t) = None) ->
  ~ In "<"%char s -> no_match m s.
Proof.
  intros Hm. induction s as [|c s IH]; [done|]. intros Hin. cbn [no_match].
  split.
  - apply Hm. intros ->. apply Hin. by left.
  - apply IH. intros H. apply Hin. by right.
Qed.

Lemma match_tag_other c t : c <> "<"%char -> match_tag (c :: t) = None.
Proof. intros Hc. apply match_tag_None. by left. Qed.

Lemma strip_chars_plain s :
  ~ In "<"%char s ->
  strip_chars s = trim (replace_all match_space [" "%char] s).
Proof.
  intros Hs. unfold strip_chars.
  rewrite (replace_all_id _ [] s)
    by (apply no_lt_no_match; [intros; by apply match_block_other|done]).
  rewrite (replace_all_id _ [] s)
    by (apply no_lt_no_match; [intros; by apply match_block_other|done]).
  by rewrite (replace_all_id match_tag _ s)
    by (apply no_lt_no_match; [intros; by apply match_tag_other|done]).
Qed.

(** X13. A text without [<] loses nothing but white space: it comes out
    with its white space collapsed and trimmed, and unchanged when its
    white space is single spaces already and it neither starts nor ends with
    white space. *)
Theorem strip_chars_text (s : list ascii) :
  ~ In "<"%char s ->
  strip_chars s = trim (replace_all match_space [" "%char] s)
  /\ (collapsed s -> spaces s = 0 -> spaces (rev s) = 0 -> strip_chars s = s).
Proof.
  intros Hs. split; [by apply strip_chars_plain|].
  intros Hcol Hhead Hlast. rewrite (strip_chars_plain _ Hs), (collapsed_id _ Hcol).
  unfold trim. rewrite (drop_spaces_id _ Hhead), (drop_spaces_id _ Hlast).
  apply rev_involutive.
Qed.

Lemma index_of_literal_none closing s :
  ~ In "<"%char s -> index_of_literal ("<"%char :: closing) s = None.
Proof.
  induction s as [|c s IH]; intros Hin; [done|].
  cbn [index_of_literal after_prefix].
  destruct (same_letter "<" c) eqn:E.
  { apply same_letter_lt in E. subst c. exfalso. apply Hin. by left. }
  rewrite IH; [done|]. intros H. apply Hin. by right.
Qed.

Lemma replace_all_plain opening closing rep s :
  ~ In "<"%char s ->
  replace_all (match_block ("<"%char :: opening) closing) rep s = s.
Proof.
  intros Hs. apply replace_all_id, no_lt_no_match; [|done].
  intros c t Hc. by apply match_block_other.
Qed.

(** X14. A script block that is never closed is not removed: only its
    opening tag goes, as any tag does, and its content stays in the text. *)
Theorem strip_chars_unclosed_script (before attrs content : list ascii) :
  ~ In "<"%char before ->
  ~ In "<"%char attrs -> ~ In ">"%char attrs ->
  ~ In "<"%char content ->
  strip_chars (before ++ list_ascii_of_string "<script" ++ attrs
                 ++ ">"%char :: content)
  = strip_chars (before ++ " "%char :: content).
Proof.
  intros Hb Ha Ha' Hc.
  assert (Hinner : ~ In "<"%char
                     (list_ascii_of_string "script" ++ attrs ++ ">"%char :: content)).
  { intros H. cbn [list_ascii_of_string app] in H.
    repeat (destruct H as [H|H]; [discriminate H|]).
    apply in_app_iff in H as [H|[H|H]]; [done|discriminate H|done]. }
  cbn [list_ascii_of_string app] in Hinner.
  assert (Hplain : ~ In "<"%char (before ++ " "%char :: content)).
  { intros H. apply in_app_iff in H as [H|[H|H]]; [done|discriminate H|done]. }
  rewrite (strip_chars_plain _ Hplain). unfold strip_chars.
  cbn [list_ascii_of_string app].
  (* the script pass *)
  rewrite (replace_all_clean _ _ _ before _ Hb).
  rewrite replace_all_skip.
  2:{ unfold match_block.
      change ("<"%char :: "s"%char :: "c"%char :: "r"%char :: "i"%char :: "p"%char
                :: "t"%char :: attrs ++ ">"%char :: content)
        with (list_ascii_of_string "<script" ++ attrs ++ ">"%char :: content).
      change ("<"%char :: "s"%char :: "c"%char :: "r"%char :: "i"%char :: "p"%char
                :: ["t"%char]) with (list_ascii_of_string "<script").
      rewrite after_prefix_self. cbn [mbind option_bind].
      rewrite (index_of_app _ _ _ Ha'). cbn [mbind option_bind].
      rewrite drop_past. by rewrite (index_of_literal_none _ _ Hc). }
  rewrite (replace_all_plain _ _ _ _ Hinner).
  (* the style pass *)
  rewrite (replace_all_clean _ _ _ before _ Hb).
  rewrite replace_all_skip by done.
  rewrite (replace_all_plain _ _ _ _ Hinner).
  (* the tag pass *)
  rewrite (replace_all_app_skip match_tag _ before).
  2:{ intros a1 c a2 ->. apply match_tag_other. intros ->.
      apply Hb, in_or_app. right. by left. }
  erewrite replace_all_match.
  2:{ unfold match_tag.
      change ("s"%char :: "c"%char :: "r"%char :: "i"%char :: "p"%char
                :: "t"%char :: attrs ++ ">"%char :: content)
        with ((list_ascii_of_string "script" ++ attrs) ++ ">"%char :: content).
      rewrite index_of_app.
      - cbn [list_ascii_of_string app length]. reflexivity.
      - intros H. repeat (destruct H as [H|H]; [discriminate H|]). done. }
  cbn [pred].
  change ("s"%char :: "c"%char :: "r"%char :: "i"%char :: "p"%char
            :: "t"%char :: attrs ++ ">"%char :: content)
    with ((list_ascii_of_string "script" ++ attrs) ++ ">"%char :: content).
  change (S (S (S (S (S (S (length attrs)))))))
    with (length (list_ascii_of_string "script" ++ attrs)).
  rewrite drop_past.
  rewrite (replace_all_id match_tag _ content)
    by (apply no_lt_no_match; [intros; by apply match_tag_other|done]).
  reflexivity.
Qed.

Lemma stripHtml_output_clean_witness :
  @stripHtml example_platform (VStr "<p>Hi <b>there</b></p>") = Normal "Hi there"
  /\ (exists d rest,
         list_ascii_of_string "there" = d :: rest /\ is_space d = false)
  /\ In ">"%char [">"%char].
Proof.
  split; [reflexivity|]. split.
  - exact (proj2 (proj2 (proj2 (@stripHtml_output_clean example_platform
                                  "<p>Hi <b>there</b></p>" "Hi there" eq_refl)
                           (list_ascii_of_string "Hi") " "%char
                           (list_ascii_of_string "there") eq_refl eq_refl))).
  - refine (proj1 (@stripHtml_output_clean example_platform
                     "a<>>b" "a<>>b" eq_refl)
              (list_ascii_of_string "a") [">"%char] (list_ascii_of_string "b")
              eq_refl _).
    discriminate.
Defined.

Lemma strip_chars_text_witness :
  strip_chars (list_ascii_of_string "  a > b   c ")
  = list_ascii_of_string "a > b c"
  /\ strip_chars (list_ascii_of_string "a > b c") = list_ascii_of_string "a > b c".
Proof.
  split.
  - exact (eq_trans
             (proj1 (strip_chars_text (list_ascii_of_string "  a > b   c ")
                       (proj1 (index_of_None "<"
                                 (list_ascii_of_string "  a > b   c ")) eq_refl)))
             eq_refl).
  - refine (proj2 (strip_chars_text (list_ascii_of_string "a > b c")
                     (proj1 (index_of_None "<"
                               (list_ascii_of_string "a > b c")) eq_refl))
              _ eq_refl eq_refl).
    repeat split; discriminate.
Defined.

Lemma strip_chars_unclosed_script_witness :
  strip_chars (list_ascii_of_string "Hi <script>alert(1)")
  = list_ascii_of_string "Hi alert(1)".
Proof.
  exact (eq_trans
           (strip_chars_unclosed_script
              (list_ascii_of_string "Hi ") [] (list_ascii_of_string "alert(1)")
              (proj1 (index_of_None "<" (list_ascii_of_string "Hi ")) eq_refl)
              (fun H => H) (fun H => H)
              (proj1 (index_of_None "<" (list_ascii_of_string "alert(1)")) eq_refl))
           eq_refl).
Defined.

(** ** More properties of the resolver *)

(** X15. With a side-loaded set and a reference at hand, the resolver
    throws a [TypeError] when the set is not a list, and when the first
    entry of the set is null; an empty list reference is the exception, for
    which it returns the empty list without looking at the set. *)
Theorem resolveIncludedNames_type_errors (payload reference : value) :
  truthy (optional payload "included") = true ->
  truthy reference = true ->
  (reference = VArr [] -> resolveIncludedNames payload reference = Normal (VArr []))
  /\ (reference <> VArr [] ->
      isArray (get payload "included") = false ->
      resolveIncludedNames payload reference
      = Throw (TypeError "find is not a function"))
  /\ (reference <> VArr [] ->
      (exists rest, get payload "included" = VArr (VNull :: rest)) ->
      resolveIncludedNames payload reference
      = Throw (TypeError "Cannot read properties of null or undefined")).
Proof.
  intros Hinc Href. unfold resolveIncludedNames. rewrite Hinc, Href. cbn [negb orb].
  split; [by intros ->|]. split.
  - intros Hne Harr.
    destruct reference as [| | | | |[|ref refs]|]; try discriminate; try done;
      unfold resolveOne; destruct (get payload "included"); done.
  - intros Hne [rest ->].
    destruct reference as [| | | | |[|ref refs]|]; try discriminate; done.
Qed.

Lemma resolveIncludedNames_type_errors_witness :
  resolveIncludedNames (VObj [("included", VStr "none")]) (VArr []) = Normal (VArr [])
  /\ resolveIncludedNames (VObj [("included", VStr "none")])
       (ref_to "taxonomy_term" "X")
     = Throw (TypeError "find is not a function")
  /\ resolveIncludedNames (VObj [("included", VArr [VNull])])
       (VArr [ref_to "taxonomy_term" "X"])
     = Throw (TypeError "Cannot read properties of null or undefined").
Proof.
  split; [|split].
  - exact (proj1 (resolveIncludedNames_type_errors
                    (VObj [("included", VStr "none")]) (VArr []) eq_refl eq_refl)
             eq_refl).
  - refine (proj1 (proj2 (resolveIncludedNames_type_errors
                            (VObj [("included", VStr "none")])
                            (ref_to "taxonomy_term" "X") eq_refl eq_refl))
              _ eq_refl).
    discriminate.
  - refine (proj2 (proj2 (resolveIncludedNames_type_errors
                            (VObj [("included", VArr [VNull])])
                            (VArr [ref_to "taxonomy_term" "X"]) eq_refl eq_refl))
              _ (ex_intro _ [] eq_refl)).
    discriminate.
Defined.

(** X16. The first side-loaded resource with the type and id of the
    reference decides the name: the entries after it are not read, so a
    second resource with the same type and id, or a null entry, further down
    the set changes nothing. *)
Theorem resolveOne_first_match (before after : list value) (resource ref : value) :
  no_null before ->
  Forall (fun x => same_ref ref x = false) before ->
  nullish resource = false ->
  nullish ref = false ->
  same_ref ref resource = true ->
  resolveOne (VArr (before ++ resource :: after)) ref
  = Normal (display_name resource).
Proof.
  intros Hnull Hmiss Hres Hr Hmatch. unfold resolveOne, Array_find.
  assert (Hfind : find_first (fun x =>
                    xt ← member x "type";
                    rt ← member ref "type";
                    if strict_eq xt rt then
                      xi ← member x "id";
                      ri ← member ref "id";
                      mret (strict_eq xi ri)
                    else mret false) (before ++ resource :: after)
                  = Normal resource).
  { set (f := fun x : value => _).
    assert (Hf : forall x, nullish x = false -> f x = Normal (same_ref ref x)).
    { intros x Hx. unfold f, member, same_ref. rewrite Hx, Hr. cbn.
      by destruct (strict_eq (get x "type") (get ref "type")). }
    induction Hnull as [|x l Hx _ IH]; cbn [app find_first].
    - by rewrite (Hf _ Hres), Hmatch.
    - apply Forall_cons in Hmiss as [Hx' Hl]. rewrite (Hf _ Hx), Hx'. cbn.
      by apply IH. }
  rewrite Hfind. cbn. unfold display_name, or_.
  destruct (truthy resource) eqn:Ht; cbn.
  - destruct (truthy (optional (get resource "attributes") "name")) eqn:Hn;
      rewrite ?Hn; [done|].
    destruct (truthy (optional (get resource "attributes") "title")) eqn:Hti;
      rewrite ?Hti; done.
  - destruct resource; try discriminate; done.
Qed.

Lemma resolveOne_first_match_witness :
  resolveOne
    (VArr ([named_resource "taxonomy_term" "W" "Canvas"]
             ++ named_resource "taxonomy_term" "X" "Oil"
             :: [named_resource "taxonomy_term" "X" "Tempera"; VNull]))
    (ref_to "taxonomy_term" "X")
  = Normal (VStr "Oil").
Proof.
  refine (resolveOne_first_match
            [named_resource "taxonomy_term" "W" "Canvas"]
            [named_resource "taxonomy_term" "X" "Tempera"; VNull]
            (named_resource "taxonomy_term" "X" "Oil")
            (ref_to "taxonomy_term" "X") _ _ eq_refl eq_refl eq_refl);
    repeat constructor.
Defined.

Lemma mapM_completion_length {A B} (f : A -> completion B) l l' :
  mapM f l = Normal l' -> length l' = length l.
Proof.
  revert l'. induction l as [|x l IH]; intros l'.
  - by intros [= <-].
  - rewrite mapM_completion_cons. destruct (f x) as [y|]; cbn; [|done].
    destruct (mapM f l) as [k|]; cbn; [|done]. intros [= <-]. cbn.
    by rewrite (IH k).
Qed.

(** X17. With a side-loaded set at hand, a list reference is answered,
    when the resolver returns, with a list, never with null or a single
    name, and the list is no longer than the reference. *)
Theorem resolveIncludedNames_list_bound (payload : value) (refs : list value)
    (result : value) :
  truthy (optional payload "included") = true ->
  resolveIncludedNames payload (VArr refs) = Normal result ->
  exists names, result = VArr names /\ length names <= length refs.
Proof.
  unfold resolveIncludedNames. intros ->. cbn [negb orb truthy].
  destruct (mapM _ refs) as [l|] eqn:Hmap; cbn; [|done].
  intros [= <-]. eexists. split; [done|].
  rewrite <- (mapM_completion_length _ _ _ Hmap). apply List.filter_length_le.
Qed.

Lemma resolveIncludedNames_list_bound_witness :
  exists names, VArr [VStr "Oil"] = VArr names /\ length names <= 2.
Proof.
  exact (resolveIncludedNames_list_bound document_with_terms
           [ref_to "taxonomy_term" "none"; ref_to "taxonomy_term" "X"]
           (VArr [VStr "Oil"]) eq_refl eq_refl).
Defined.

(** ** Properties of the tool *)

Lemma run_bind_done {A B} (net : nat -> request -> reply) (k : A -> prog B)
    (g : A -> completion B) (p : prog A) n :
  (forall a, k a = Done (g a)) ->
  run net n (prog_bind k p)
  = (fst (run net n p) ≫= g, snd (run net n p)).
Proof.
  intros Hk. revert n. induction p as [[a|e]|r k' IH]; intros n; cbn.
  - by rewrite Hk.
  - done.
  - rewrite IH. by destruct (run net (S n) (k' (net n r))).
Qed.

Section Tool.
Context {platform : Platform} {config : Config}.

End Tool.


(** A record without a title is announced as null. *)
Example get_opera_by_inventario_untitled :
  fst (run (fun _ _ => Responded true 200 "{}") 0
         (@get_opera_by_inventario
            {| Number_toString := @Number_toString example_platform;
               JSON_parse := fun _ => Some zero_document;
               base64 := base64_of_string |}
            example_config "2"))
  = Normal
      {| structuredContent := Found zero_item;
         content := [{| content_type := "text";
                        content_text := "Found: null (inventario null)" |}] |}.
Proof. reflexivity. Qed.

(** ** The dispatcher over a sequence of messages *)

Section Serve.
Context {sdk : SDK}.

Lemma run_callbacks_built (bound : nat) (session : Session) cbs
    (registry : gmap string Session) :
  transport session < bound -> server session = transport session ->
  (forall id s, registry !! id = Some s ->
                transport s < bound /\ server s = transport s) ->
  forall id s,
    foldl (run_callback session) registry cbs !! id = Some s ->
    transport s < bound /\ server s = transport s.
Proof.
  intros Ht Hs. revert registry. induction cbs as [|cb cbs IH]; intros registry Hreg.
  - exact Hreg.
  - cbn [foldl]. apply IH. intros id s.
    destruct cb as [newSessionId|[sessionId|]]; cbn [run_callback].
    + destruct (decide (newSessionId = id)) as [->|Hne].
      * rewrite lookup_insert_eq. by intros [= <-].
      * rewrite lookup_insert_ne by done. apply Hreg.
    + destruct (negb (String.eqb sessionId "")); [|apply Hreg].
      destruct (decide (sessionId = id)) as [->|Hne].
      * by rewrite lookup_delete_eq.
      * rewrite lookup_delete_ne by done. apply Hreg.
    + apply Hreg.
Qed.

Lemma find_session_lookup st header session :
  find_session st header = Some session ->
  exists id, header = Some id /\ id <> "" /\ sessions st !! id = Some session.
Proof.
  destruct header as [id|]; cbn; [|done].
  destruct (String.eqb_spec id ""); cbn; [done|]. eauto.
Qed.

Lemma hand_over_built st session req :
  built (fst (hand_over st session req)) = built st.
Proof. reflexivity. Qed.

Lemma hand_over_registry_built st session req :
  registry_built st ->
  transport session < built st -> server session = transport session ->
  registry_built (fst (hand_over st session req)).
Proof.
  intros Hst Ht Hs id s. unfold hand_over. cbn [fst sessions built].
  by apply run_callbacks_built.
Qed.

Lemma handle_registry_built st m :
  registry_built st ->
  registry_built (fst (handle st m))
  /\ built st <= built (fst (handle st m))
  /\ built (fst (handle st m)) <= built st + (if is_post m then 1 else 0).
Proof.
  intros Hst.
  assert (Hget : forall req,
             registry_built (fst (get_mcp st req))
             /\ built st <= built (fst (get_mcp st req))
             /\ built (fst (get_mcp st req)) <= built st + 0).
  { intros req. unfold get_mcp.
    destruct (find_session st (mcp_session_id req)) as [session|] eqn:Hfind.
    - destruct (find_session_lookup _ _ _ Hfind) as (id & _ & _ & Hid).
      destruct (Hst _ _ Hid) as [Ht Hs].
      pose proof (hand_over_registry_built st session req Hst Ht Hs) as Hok.
      pose proof (hand_over_built st session req) as Hb.
      destruct (hand_over st session req) as [st' h]. cbn [fst] in *.
      split; [done|]. lia.
    - cbn [fst]. split; [done|]. lia. }
  destruct m as [req|req|req]; cbn [handle is_post]; [|apply Hget..].
  unfold post_mcp.
  destruct (find_session st (mcp_session_id req)) as [session|] eqn:Hfind.
  - destruct (find_session_lookup _ _ _ Hfind) as (id & _ & _ & Hid).
    destruct (Hst _ _ Hid) as [Ht Hs].
    pose proof (hand_over_registry_built st session req Hst Ht Hs) as Hok.
    pose proof (hand_over_built st session req) as Hb.
    destruct (hand_over st session req) as [st' h]. cbn [fst] in *.
    split; [done|]. lia.
  - destruct (negb (present (mcp_session_id req)) && isInitializeRequest (body req)).
    + set (st1 := {| sessions := sessions st; built := S (built st) |}).
      set (session := {| transport := built st; server := built st |}).
      assert (Hst1 : registry_built st1).
      { intros id s Hid. destruct (Hst id s Hid). cbn. split; [lia|done]. }
      pose proof (hand_over_registry_built st1 session req Hst1
                    (Nat.lt_succ_diag_r _) eq_refl) as Hok.
      pose proof (hand_over_built st1 session req) as Hb.
      destruct (hand_over st1 session req) as [st' h]. cbn [fst] in *.
      split; [done|]. cbn in Hb. lia.
    + cbn [fst]. split; [done|]. lia.
Qed.

(** X19. Whatever the transports do, after any sequence of messages to
    [/mcp], each handled to its end before the next, every session in the
    registry holds a transport that the POST handler built and the server
    built with it; and no more transports have been built than POST
    messages were received. *)
Theorem serve_registry_built (messages : list message) :
  registry_built (serve no_sessions messages)
  /\ built (serve no_sessions messages) <= length (List.filter is_post messages).
Proof.
  assert (Hgen : forall st,
             registry_built st ->
             registry_built (serve st messages)
             /\ built (serve st messages)
                <= built st + length (List.filter is_post messages)).
  { induction messages as [|m l IH]; intros st Hst.
    - cbn. split; [done|lia].
    - destruct (handle_registry_built st m Hst) as (Hok & _ & Hb).
      destruct (IH _ Hok) as [Hok' Hb'].
      unfold serve in *. cbn [foldl List.filter]. split; [done|].
      destruct (is_post m); cbn [length] in *; lia. }
  apply Hgen. intros id s Hid. cbn in Hid. by rewrite lookup_empty in Hid.
Qed.
End Serve.

Section Boundary.
Context {sdk : SDK}.

(** X20. The POST handler lets no exception of a transport out: when the
    transport of a live session throws before the headers are sent, the
    answer is status 500 with the JSON-RPC error of code -32603, and when it
    throws after they are sent, nothing is added to what the transport
    wrote. The GET and DELETE handlers have no such boundary: the same
    exception leaves them uncaught. *)
Theorem post_catches_get_does_not st req session :
  snd (post_mcp st req) <> Uncaught
  /\ (find_session st (mcp_session_id req) = Some session ->
      threw (handleRequest (transport session) req) = true ->
      snd (post_mcp st req)
      = (if headersSent (handleRequest (transport session) req)
         then ByTransport
         else JsonRpcError 500 (-32603) "Internal server error")
      /\ snd (get_mcp st req) = Uncaught
      /\ snd (delete_mcp st req) = Uncaught).
Proof.
  split.
  - unfold post_mcp, hand_over.
    destruct (find_session st (mcp_session_id req)) as [s|]; cbn.
    + by destruct (threw _ && negb (headersSent _)).
    + destruct (negb (present (mcp_session_id req)) && isInitializeRequest (body req));
        cbn; [|done].
      by destruct (threw _ && negb (headersSent _)).
  - intros Hfind Hthrew. unfold delete_mcp, get_mcp, post_mcp, hand_over.
    rewrite Hfind. cbn. rewrite Hthrew. cbn.
    by destruct (headersSent _).
Qed.

(** X21. When the transport of a live session closes while it handles a
    message, as for a DELETE that ends the session, the session leaves the
    registry and nothing else changes; a later message with its id is
    rejected with status 400 by each of the three handlers, an
    initialization request included. *)
Theorem closed_session_is_gone st req id session :
  mcp_session_id req = Some id ->
  id <> "" ->
  sessions st !! id = Some session ->
  callbacks (handleRequest (transport session) req) = [Closed (Some id)] ->
  fst (delete_mcp st req) = {| sessions := delete id (sessions st); built := built st |}
  /\ fst (get_mcp st req) = fst (delete_mcp st req)
  /\ fst (post_mcp st req) = fst (delete_mcp st req)
  /\ forall later,
      mcp_session_id later = Some id ->
      get_mcp (fst (delete_mcp st req)) later
      = (fst (delete_mcp st req), PlainText 400 "Invalid or missing session ID")
      /\ delete_mcp (fst (delete_mcp st req)) later
         = (fst (delete_mcp st req), PlainText 400 "Invalid or missing session ID")
      /\ post_mcp (fst (delete_mcp st req)) later
         = (fst (delete_mcp st req),
            JsonRpcError 400 (-32000) "Bad Request: No valid session ID provided").
Proof.
  intros Hid Hne Hsession Hcb.
  assert (Hfind : find_session st (mcp_session_id req) = Some session).
  { rewrite Hid. cbn. by destruct (String.eqb_spec id ""). }
  assert (Hstate : fst (delete_mcp st req)
                   = {| sessions := delete id (sessions st); built := built st |}).
  { unfold delete_mcp, get_mcp, hand_over. rewrite Hfind. cbn. rewrite Hcb. cbn.
    by destruct (String.eqb_spec id ""). }
  split; [exact Hstate|]. split; [done|]. split.
  { rewrite Hstate. unfold post_mcp, hand_over. rewrite Hfind. cbn. rewrite Hcb. cbn.
    by destruct (String.eqb_spec id ""). }
  intros later Hlater. rewrite Hstate.
  assert (Hgone : find_session {| sessions := delete id (sessions st);
                                  built := built st |} (mcp_session_id later) = None).
  { rewrite Hlater. cbn. rewrite lookup_delete_eq. by destruct (negb _). }
  unfold delete_mcp, get_mcp, post_mcp. rewrite Hgone. repeat split.
  rewrite Hlater. cbn [present]. by destruct (String.eqb_spec id "").
Qed.

(** X22. The session that an initialization registers is the one the next
    messages reach: after a POST without a session id whose body is an
    initialization request, confirmed by the transport under an id that is
    not empty, a message with that id is handed to the transport just built,
    by each of the three handlers, and builds nothing. *)
Theorem initialized_session_is_found st req id later :
  present (mcp_session_id req) = false ->
  isInitializeRequest (body req) = true ->
  callbacks (handleRequest (built st) req) = [SessionInitialized id] ->
  id <> "" ->
  mcp_session_id later = Some id ->
  let st' := fst (post_mcp st req) in
  let session := {| transport := built st; server := built st |} in
  find_session st' (mcp_session_id later) = Some session
  /\ fst (post_mcp st' later) = fst (hand_over st' session later)
  /\ fst (get_mcp st' later) = fst (hand_over st' session later)
  /\ fst (delete_mcp st' later) = fst (hand_over st' session later)
  /\ built (fst (post_mcp st' later)) = S (built st).
Proof.
  intros Hid Hinit Hcb Hne Hlater. cbn zeta.
  assert (Hst' : fst (post_mcp st req)
                 = {| sessions := <[id := {| transport := built st; server := built st |}]>
                                    (sessions st);
                      built := S (built st) |}).
  { unfold post_mcp, hand_over.
    rewrite (find_session_absent _ _ Hid), Hid, Hinit. cbn. by rewrite Hcb. }
  rewrite Hst'.
  assert (Hfind : find_session
                    {| sessions := <[id := {| transport := built st; server := built st |}]>
                                     (sessions st);
                       built := S (built st) |} (mcp_session_id later)
                  = Some {| transport := built st; server := built st |}).
  { rewrite Hlater. cbn. rewrite lookup_insert_eq. by destruct (String.eqb_spec id ""). }
  split; [exact Hfind|].
  unfold delete_mcp, get_mcp, post_mcp. rewrite Hfind.
  destruct (hand_over _ _ later) as [st2 h] eqn:Hho. cbn [fst].
  repeat split. change st2 with (fst (st2, h)). rewrite <- Hho. reflexivity.
Qed.
End Boundary.

Lemma post_catches_get_does_not_witness :
  snd (@post_mcp throwing_sdk one_session
         {| mcp_session_id := Some "session-0"; body := tool_call_message |})
  = JsonRpcError 500 (-32603) "Internal server error"
  /\ snd (@get_mcp throwing_sdk one_session
            {| mcp_session_id := Some "session-0"; body := tool_call_message |})
     = Uncaught.
Proof.
  pose proof (proj2 (@post_catches_get_does_not throwing_sdk one_session
                       {| mcp_session_id := Some "session-0";
                          body := tool_call_message |}
                       {| transport := 0; server := 0 |})
                eq_refl eq_refl) as (Hpost & Hget & _).
  exact (conj Hpost Hget).
Defined.

Lemma closed_session_is_gone_witness :
  fst (@delete_mcp closing_sdk one_session
         {| mcp_session_id := Some "session-0"; body := VUndefined |})
  = {| sessions := delete "session-0" (sessions one_session); built := 1 |}.
Proof.
  refine (proj1 (@closed_session_is_gone closing_sdk one_session
                   {| mcp_session_id := Some "session-0"; body := VUndefined |}
                   "session-0" {| transport := 0; server := 0 |}
                   eq_refl _ eq_refl eq_refl)).
  discriminate.
Defined.

Lemma initialized_session_is_found_witness :
  find_session
    (fst (@post_mcp example_sdk no_sessions
            {| mcp_session_id := None; body := initialize_message |}))
    (Some "session-0")
  = Some {| transport := 0; server := 0 |}.
Proof.
  refine (proj1 (@initialized_session_is_found example_sdk no_sessions
                   {| mcp_session_id := None; body := initialize_message |}
                   "session-0"
                   {| mcp_session_id := Some "session-0"; body := tool_call_message |}
                   eq_refl eq_refl eq_refl _ eq_refl)).
  discriminate.
Defined.

(** ** Where the inventory number goes in a query *)

Lemma string_app_assoc (a b c : string) : (a +:+ b) +:+ c = a +:+ (b +:+ c).
Proof.
  induction a as [|x a IH]; [done|].
  change (String x ((a +:+ b) +:+ c) = String x (a +:+ (b +:+ c))). by rewrite IH.
Qed.

Lemma string_app_nil_r (a : string) : a +:+ "" = a.
Proof.
  induction a as [|x a IH]; [done|].
  change (String x (a +:+ "") = String x a). by rewrite IH.
Qed.

Lemma list_ascii_of_string_app a b :
  list_ascii_of_string (a +:+ b) = list_ascii_of_string a ++ list_ascii_of_string b.
Proof.
  induction a as [|c a IH]; [done|].
  change (String c a +:+ b) with (String c (a +:+ b)).
  cbn [list_ascii_of_string app]. by rewrite IH.
Qed.

Lemma string_app_inv_tail (a b c : string) : a +:+ c = b +:+ c -> a = b.
Proof.
  intros Heq.
  rewrite <- (string_of_list_ascii_of_string a), <- (string_of_list_ascii_of_string b).
  f_equal. apply (app_inv_tail (list_ascii_of_string c)).
  by rewrite <- !list_ascii_of_string_app, Heq.
Qed.

Lemma set_pair_split name l :
  exists A B, forall v, set_pair name v l = A ++ (name, v) :: B.
Proof.
  induction l as [|[k x] l (A & B & IH)].
  - by exists [], [].
  - cbn [set_pair]. destruct (String.eqb k name).
    + by exists [], (List.filter (fun p => negb (String.eqb (fst p) name)) l).
    + exists ((k, x) :: A), B. intros v. by rewrite IH.
Qed.

Lemma set_pair_middle name' v' name A B :
  name <> name' ->
  exists A' B', forall n : string,
    set_pair name' v' (A ++ (name, n) :: B) = A' ++ (name, n) :: B'.
Proof.
  intros Hne. induction A as [|[k x] A (A' & B' & IH)].
  - exists [], (set_pair name' v' B). intros n. cbn [app set_pair].
    by destruct (String.eqb_spec name name').
  - cbn [app set_pair]. destruct (String.eqb k name').
    + exists ((name', v')
                :: List.filter (fun p => negb (String.eqb (fst p) name')) A),
             (List.filter (fun p => negb (String.eqb (fst p) name')) B).
      intros n. rewrite List.filter_app. cbn [List.filter fst app].
      by destruct (String.eqb_spec name name').
    + exists ((k, x) :: A'), B'. intros n. by rewrite IH.
Qed.

Lemma join_cons sep x l :
  l <> [] -> join sep (x :: l) = x +:+ sep +:+ join sep l.
Proof. by destruct l. Qed.

Lemma join_split (f : string * string -> string) A B :
  exists P S, forall p,
    join "&" (List.map f (A ++ p :: B)) = P +:+ f p +:+ S.
Proof.
  induction A as [|a A (P & S & IH)].
  - destruct B as [|b B].
    + exists "", "". intros p. cbn. by rewrite string_app_nil_r.
    + exists "", ("&" +:+ join "&" (List.map f (b :: B))). intros p. done.
  - exists (f a +:+ "&" +:+ P), S. intros p.
    cbn [app List.map]. rewrite join_cons by (by destruct A).
    by rewrite IH, !string_app_assoc.
Qed.

Lemma toString_split (u : string -> URL) name A B :
  (forall n, searchParams (u n) = A ++ (name, n) :: B) ->
  (forall n, url_base (u n) = url_base (u "")) ->
  (forall n, url_hash (u n) = url_hash (u "")) ->
  exists prefix suffix, forall n,
    toString (u n) = prefix +:+ form_encode n +:+ suffix.
Proof.
  intros Hparams Hbase Hhash.
  destruct (join_split (fun p => form_encode (fst p) +:+ "=" +:+ form_encode (snd p))
              A B) as (P & S & Hjoin).
  exists (url_base (u "") +:+ "?" +:+ P +:+ form_encode name +:+ "="),
         (S +:+ url_hash (u "")).
  intros n. unfold toString. rewrite Hparams, Hbase, Hhash.
  destruct (A ++ (name, n) :: B) eqn:E; [destruct A; discriminate E|].
  rewrite <- E, Hjoin. cbn [fst snd]. by rewrite !string_app_assoc.
Qed.

Section Placement.
Context {config : Config}.

End Placement.

